(** * Moon storefront: cart reducer, versioned storage and form validation

    A shallow embedding of

    - [src/contexts/CartContext.tsx]: [cartReducer], [calculateCartTotals];
    - [src/utils/storage.ts] and [safeJsonParse] of [src/utils/helpers.ts]:
      [migrations], [migrateData], [saveToStorage], [loadFromStorage];
    - [src/hooks/useForm.ts]: [validateField];

    together with the properties the specification states about them.

    Conventions.  A JavaScript [number] is a [Z]: quantities, prices,
    versions and timestamps are integers throughout the program, and on
    integers the arithmetic of the source is exact.  [Date.now()] is an
    argument [now] of the function that reads the clock.  An exception is a
    [None] inside the body that can raise it and is discharged where the
    source has its [catch]. *)

From Stdlib Require Import ZArith Lia Ascii.
From stdpp Require Import base option list strings gmap pretty.

Open Scope Z_scope.
Set Warnings "-register-all".

(** ** Array methods of the host, on lists

    The callbacks of [findIndex], [map] and [filter] receive the element and
    its index; the index is a number, and [findIndex] answers [-1] when no
    element qualifies. *)

Module Array.

Fixpoint findIndex_from {A} (p : A → bool) (l : list A) (i : Z) : Z :=
  match l with
  | [] => -1
  | x :: l' => if p x then i else findIndex_from p l' (i + 1)
  end.

Definition findIndex {A} (p : A → bool) (l : list A) : Z :=
  findIndex_from p l 0.

Fixpoint map_from {A B} (f : A → Z → B) (l : list A) (i : Z) : list B :=
  match l with
  | [] => []
  | x :: l' => f x i :: map_from f l' (i + 1)
  end.

Definition map {A B} (f : A → Z → B) (l : list A) : list B := map_from f l 0.

Fixpoint filter_from {A} (f : A → Z → bool) (l : list A) (i : Z) : list A :=
  match l with
  | [] => []
  | x :: l' =>
      if f x i then x :: filter_from f l' (i + 1) else filter_from f l' (i + 1)
  end.

Definition filter {A} (f : A → Z → bool) (l : list A) : list A :=
  filter_from f l 0.

(** [l.reduce(f, init)] folds from the left. *)
Definition reduce {A B} (f : B → A → B) (init : B) (l : list A) : B :=
  fold_left f l init.

End Array.

(** ** Domain types ([src/types/product.ts], [src/types/cart.ts]) *)

Inductive ProductCategory := shilajit | saffron | dry_fruits.

Record Product := mkProduct {
  id : string;
  name : string;
  category : ProductCategory;
  description : string;
  price : Z;
  originalPrice : option Z;
  image : string;
  featured : bool;
  inStock : bool;
  weight : string;
  benefits : list string;
  tags : list string;
}.

Record CartItem := mkCartItem {
  product : Product;
  quantity : Z;
  addedAt : Z;
}.

Record Cart := mkCart {
  items : list CartItem;
  totalItems : Z;
  totalPrice : Z;
}.

Inductive CartAction :=
| ADD_ITEM (product : Product) (quantity : Z)
| REMOVE_ITEM (productId : string)
| UPDATE_QUANTITY (productId : string) (quantity : Z)
| CLEAR_CART
| LOAD_CART (payload : Cart)
| OPTIMISTIC_ADD (product : Product) (quantity : Z)
| ROLLBACK_ADD (productId : string).

(** ** The reducer ([src/contexts/CartContext.tsx]) *)

Definition initialCart : Cart :=
  {| items := []; totalItems := 0; totalPrice := 0 |}.

(** [{ ...item, quantity: q }] *)
Definition with_quantity (item : CartItem) (q : Z) : CartItem :=
  {| product := product item; quantity := q; addedAt := addedAt item |}.

(** [{ ...state, items: newItems }] *)
Definition with_items (state : Cart) (newItems : list CartItem) : Cart :=
  {| items := newItems;
     totalItems := totalItems state;
     totalPrice := totalPrice state |}.

Definition calculateCartTotals (cart : Cart) : Cart :=
  let totalItems' :=
    Array.reduce (λ sum item, sum + quantity item) 0 (items cart) in
  let totalPrice' :=
    Array.reduce (λ sum item, sum + price (product item) * quantity item)
      0 (items cart) in
  {| items := items cart; totalItems := totalItems'; totalPrice := totalPrice' |}.

(** The [REMOVE_ITEM] case.  It is a definition of its own because the
    [UPDATE_QUANTITY] case re-enters the reducer with a [REMOVE_ITEM] action
    (line 91); that one recursive call is unfolded here. *)
Definition reduce_REMOVE_ITEM (state : Cart) (productId : string) : Cart :=
  let newItems :=
    Array.filter
      (λ item _, negb (String.eqb (id (product item)) productId))
      (items state) in
  calculateCartTotals (with_items state newItems).

Definition cartReducer (now : Z) (state : Cart) (action : CartAction) : Cart :=
  match action with
  | ADD_ITEM product0 quantity0 =>
      let existingItemIndex :=
        Array.findIndex
          (λ item, String.eqb (id (product item)) (id product0))
          (items state) in
      let newItems :=
        if -1 <? existingItemIndex then
          Array.map
            (λ item index,
               if index =? existingItemIndex
               then with_quantity item (quantity item + quantity0)
               else item)
            (items state)
        else
          items state ++
            [{| product := product0; quantity := quantity0; addedAt := now |}] in
      calculateCartTotals (with_items state newItems)
  | OPTIMISTIC_ADD product0 quantity0 =>
      let existingItemIndex :=
        Array.findIndex
          (λ item, String.eqb (id (product item)) (id product0))
          (items state) in
      let newItems :=
        if -1 <? existingItemIndex then
          Array.map
            (λ item index,
               if index =? existingItemIndex
               then with_quantity item (quantity item + quantity0)
               else item)
            (items state)
        else
          items state ++
            [{| product := product0; quantity := quantity0; addedAt := now |}] in
      calculateCartTotals (with_items state newItems)
  | ROLLBACK_ADD productId =>
      let itemIndex :=
        Array.findIndex
          (λ item, String.eqb (id (product item)) productId)
          (items state) in
      if itemIndex =? -1 then state
      else
        let newItems :=
          Array.filter (λ _ index, negb (index =? itemIndex)) (items state) in
        calculateCartTotals (with_items state newItems)
  | REMOVE_ITEM productId => reduce_REMOVE_ITEM state productId
  | UPDATE_QUANTITY productId quantity0 =>
      if quantity0 <=? 0 then reduce_REMOVE_ITEM state productId
      else
        let newItems :=
          Array.map
            (λ item _,
               if String.eqb (id (product item)) productId
               then with_quantity item quantity0
               else item)
            (items state) in
        calculateCartTotals (with_items state newItems)
  | CLEAR_CART => initialCart
  | LOAD_CART payload => payload
  end.

(** ** Specification-side notions for the cart

    The sums of the data model, written with a right fold over the mapped
    list, independently of the reducer's [reduce] calls. *)

Definition Zsum (l : list Z) : Z := foldr Z.add 0 l.

Definition totals_hold (c : Cart) : Prop :=
  totalItems c = Zsum (quantity <$> items c) ∧
  totalPrice c =
    Zsum ((λ item, quantity item * price (product item)) <$> items c).

(** Item identity is product id equality. *)
Definition matches (productId : string) (item : CartItem) : Prop :=
  id (product item) = productId.

Definition absent (productId : string) (l : list CartItem) : Prop :=
  ∀ item, item ∈ l → ¬ matches productId item.

(** A dispatched action together with the clock value the reducer reads
    while handling it. *)
Definition dispatch : Type := Z * CartAction.

(** The carts after each action of a sequence, in order. *)
Fixpoint run (state : Cart) (ds : list dispatch) : list Cart :=
  match ds with
  | [] => []
  | (now, a) :: ds' =>
      let state' := cartReducer now state a in state' :: run state' ds'
  end.

Definition is_LOAD_CART (a : CartAction) : bool :=
  match a with LOAD_CART _ => true | _ => false end.

(** ** JavaScript values that reach the storage utility

    What [JSON.parse] can return, plus [undefined]. *)

Inductive jsval :=
| JUndefined
| JNull
| JBool (b : bool)
| JNum (n : Z)
| JStr (s : string)
| JArr (elems : list jsval)
| JObj (props : list (string * jsval)).

Module JS.

Fixpoint lookup_prop (k : string) (props : list (string * jsval)) : option jsval :=
  match props with
  | [] => None
  | (k', x) :: rest => if String.eqb k' k then Some x else lookup_prop k rest
  end.

(** Defining property [k]: an existing key keeps its place, a new key goes
    last. *)
Fixpoint set_prop (k : string) (x : jsval) (props : list (string * jsval))
  : list (string * jsval) :=
  match props with
  | [] => [(k, x)]
  | (k', y) :: rest =>
      if String.eqb k' k then (k, x) :: rest else (k', y) :: set_prop k x rest
  end.

Fixpoint chars (s : string) : list jsval :=
  match s with
  | EmptyString => []
  | String c s' => JStr (String c EmptyString) :: chars s'
  end.

(** Own enumerable properties, in enumeration order: what an object spread
    copies. *)
Definition own_props (v : jsval) : list (string * jsval) :=
  match v with
  | JObj props => props
  | JArr elems => imap (λ (i : nat) e, (pretty i, e)) elems
  | JStr s => imap (λ (i : nat) e, (pretty i, e)) (chars s)
  | _ => []
  end.

(** An array index as a property key: a decimal numeral without a leading
    zero. *)
Definition digit_value (c : ascii) : option nat :=
  let n := nat_of_ascii c in
  if (48 <=? n)%nat && (n <=? 57)%nat then Some (n - 48)%nat else None.

Fixpoint decimal (acc : nat) (s : string) : option nat :=
  match s with
  | EmptyString => Some acc
  | String c s' => d ← digit_value c; decimal (10 * acc + d)%nat s'
  end.

Definition array_index (k : string) : option nat :=
  match k with
  | EmptyString => None
  | String c s' =>
      d ← digit_value c;
      if (d =? 0)%nat then
        match s' with EmptyString => Some 0%nat | _ => None end
      else decimal d s'
  end.

(** [elems[k]] for the elements of an array or the characters of a
    string. *)
Definition indexed (elems : list jsval) (k : string) : jsval :=
  match array_index k with
  | Some i => default JUndefined (elems !! i)
  | None =>
      if String.eqb k "length" then JNum (Z.of_nat (length elems))
      else JUndefined
  end.

(** [v.k].  [None] is the [TypeError] of reading a property of [null] or
    [undefined].  Members inherited from the prototypes are not data and are
    left out; none of the names the source reads ([version], [data], [cart],
    [items]) is one. *)
Definition Get (v : jsval) (k : string) : option jsval :=
  match v with
  | JUndefined | JNull => None
  | JObj props => Some (default JUndefined (lookup_prop k props))
  | JArr elems => Some (indexed elems k)
  | JStr s => Some (indexed (chars s) k)
  | JBool _ | JNum _ => Some JUndefined
  end.

(** ToBoolean *)
Definition truthy (v : jsval) : bool :=
  match v with
  | JUndefined | JNull => false
  | JBool b => b
  | JNum n => negb (n =? 0)
  | JStr s => negb (String.eqb s "")
  | JArr _ | JObj _ => true
  end.

(** ToString, which is also ToPropertyKey for these values. *)
Fixpoint ToString (v : jsval) : string :=
  match v with
  | JUndefined => "undefined"
  | JNull => "null"
  | JBool b => if b then "true" else "false"
  | JNum n => pretty n
  | JStr s => s
  | JArr elems =>
      String.concat ","
        (List.map
           (λ e, match e with
                 | JUndefined | JNull => ""
                 | _ => ToString e
                 end)
           elems)
  | JObj _ => "[object Object]"
  end.

End JS.

(** ** What the browser provides

    [JSON.parse] answers [None] where it throws a [SyntaxError];
    [JSON.stringify] answers [None] where it throws; [StringToNumber] is the
    numeric reading of a string, [None] for [NaN]. *)

Class Host := {
  JSON_parse : string → option jsval;
  JSON_stringify : jsval → option string;
  StringToNumber : string → option Z;
}.

(** [localStorage]: [getItem] is the lookup ([None] for [null]), [setItem]
    the insertion.  The store is taken to have room for every write. *)
Abbreviation Storage := (gmap string string).

(** What a function body ends with. *)
Inductive completion (A : Type) :=
| Normal (a : A)
| Throw.
Arguments Normal {A} a.
Arguments Throw {A}.

Module StorageUtil.
Section WithHost.
Context `{!Host}.

(** ToNumber; [None] is [NaN]. *)
Definition ToNumber (v : jsval) : option Z :=
  match v with
  | JUndefined => None
  | JNull => Some 0
  | JBool b => Some (if b then 1 else 0)
  | JNum n => Some n
  | JStr s => StringToNumber s
  | JArr _ | JObj _ => StringToNumber (JS.ToString v)
  end.

(** [v < n] for a number [n]: false when [v] reads as [NaN]. *)
Definition lessThan (v : jsval) (n : Z) : bool :=
  match ToNumber v with
  | Some x => x <? n
  | None => false
  end.

(** [src/utils/helpers.ts] *)
Definition safeJsonParse (json : string) (fallback : jsval) : jsval :=
  match JSON_parse json with
  | Some v => v
  | None => fallback
  end.

(** [src/utils/storage.ts] *)
Definition STORAGE_VERSION : Z := 1.
Definition VERSION_KEY : string := "monnn_storage_version".

(** [{version, data, timestamp}] *)
Definition StorageData (version : Z) (data : jsval) (timestamp : Z) : jsval :=
  JObj [("version", JNum version); ("data", data); ("timestamp", JNum timestamp)].

(** [migrations[0]] *)
Definition migration_0 (data : jsval) : option jsval :=
  cart ← JS.Get data "cart";
  if JS.truthy cart then
    cart_items ← JS.Get cart "items";
    if negb (JS.truthy cart_items) then
      Some
        (JObj
           (JS.set_prop "cart"
              (JObj [("items", cart);
                     ("totalItems", JNum 0);
                     ("totalPrice", JNum 0)])
              (JS.own_props data)))
    else Some data
  else Some data.

(** [migrations[key]]: the object has the one own key [0].  The members it
    inherits have names that are not numerals, and [migrateData] looks up
    only keys that read as a number below the current version. *)
Definition migrations (key : string) : option (jsval → option jsval) :=
  if String.eqb key "0" then Some migration_0 else None.

(** The loop body of [migrateData]. *)
Definition migrate_step (key : string) (migratedData : jsval) : option jsval :=
  match migrations key with
  | Some f => f migratedData
  | None => Some migratedData
  end.

(** The iterations of [migrateData] once [v] is a number; [n] counts the
    iterations that remain, a finite count because [v] is an integer. *)
Fixpoint migrate_loop (n : nat) (v : Z) (migratedData : jsval) : option jsval :=
  match n with
  | O => Some migratedData
  | S n' =>
      if v <? STORAGE_VERSION then
        d ← migrate_step (pretty v) migratedData;
        migrate_loop n' (v + 1) d
      else Some migratedData
  end.

(** [migrateData].  The loop variable starts as the stored [version], which
    need not be a number: the first test and the first index use it as it is,
    and [v++] leaves the number [ToNumber v + 1]. *)
Definition migrateData (data fromVersion : jsval) : option jsval :=
  if lessThan fromVersion STORAGE_VERSION then
    d ← migrate_step (JS.ToString fromVersion) data;
    match ToNumber fromVersion with
    | Some n => migrate_loop (Z.to_nat (STORAGE_VERSION - (n + 1))) (n + 1) d
    | None => Some d
    end
  else Some data.

(** [saveToStorage]: an exception of [JSON.stringify] is caught and logged,
    and the store stays as it was. *)
Definition saveToStorage (st : Storage) (key : string) (data : jsval) (now : Z)
  : Storage :=
  match JSON_stringify (StorageData STORAGE_VERSION data now) with
  | Some s => <[VERSION_KEY := pretty STORAGE_VERSION]> (<[key := s]> st)
  | None => st
  end.

(** The [try] block of [loadFromStorage]; [None] when an exception leaves
    it.  The clock is read for the fallback envelope and again inside
    [saveToStorage]; no timestamp is ever read back, and one [now] stands for
    both readings. *)
Definition loadFromStorage_try
    (st : Storage) (key : string) (defaultValue : jsval) (now : Z)
  : option (jsval * Storage) :=
  match st !! key with
  | None => Some (defaultValue, st)
  | Some item =>
      if String.eqb item "" then Some (defaultValue, st)
      else
        let storageData :=
          safeJsonParse item (StorageData 0 defaultValue now) in
        version ← JS.Get storageData "version";
        if lessThan version STORAGE_VERSION then
          data ← JS.Get storageData "data";
          migratedData ← migrateData data version;
          Some (migratedData, saveToStorage st key migratedData now)
        else
          data ← JS.Get storageData "data";
          Some (data, st)
  end.

(** [loadFromStorage]: the [catch] logs and returns [defaultValue]. *)
Definition loadFromStorage
    (st : Storage) (key : string) (defaultValue : jsval) (now : Z)
  : completion (jsval * Storage) :=
  match loadFromStorage_try st key defaultValue now with
  | Some r => Normal r
  | None => Normal (defaultValue, st)
  end.

(** [removeFromStorage] *)
Definition removeFromStorage (st : Storage) (key : string) : Storage :=
  delete key st.

(** [clearStorage]: the keys of the store that start with the prefix of the
    application, each removed in turn. *)
Definition clearStorage (st : Storage) : Storage :=
  let keys :=
    List.filter (λ key, String.prefix "monnn_" key) (map_to_list st).*1 in
  fold_left (λ s key, delete key s) keys st.

(** *** Specification-side notions for the storage utility *)

(** The host's codec gives [v] a text, not empty, that it reads back as
    [v]: what it is for the envelope of a value to be serializable. *)
Definition round_trips (v : jsval) : Prop :=
  ∃ s, JSON_stringify v = Some s ∧ s ≠ "" ∧ JSON_parse s = Some v.

(** [data] is in the legacy shape the version-0 transform looks for: it has
    a truthy [cart] that has no truthy [items]. *)
Definition legacy_cart (data cart : jsval) : Prop :=
  JS.Get data "cart" = Some cart ∧ JS.truthy cart = true ∧
  ∃ x, JS.Get cart "items" = Some x ∧ JS.truthy x = false.

(** The current shape of such data: [cart] becomes a cart record whose
    [items] is the old [cart]. *)
Definition upgraded (data cart : jsval) : jsval :=
  JObj
    (JS.set_prop "cart"
       (JObj [("items", cart); ("totalItems", JNum 0); ("totalPrice", JNum 0)])
       (JS.own_props data)).

(** The registered transforms of the listed versions, applied in list
    order; a version without a transform passes the data through. *)
Fixpoint apply_chain (versions : list Z) (data : jsval) : option jsval :=
  match versions with
  | [] => Some data
  | v :: vs =>
      match migrations (pretty v) with
      | Some f => d ← f data; apply_chain vs d
      | None => apply_chain vs data
      end
  end.

(** The value a completed call returned. *)
Definition returned (c : completion (jsval * Storage)) : option jsval :=
  match c with
  | Normal (v, _) => Some v
  | Throw => None
  end.

End WithHost.
End StorageUtil.

(** ** A reference host

    The integer, byte-string fragment of the browser's JSON codec and of its
    string-to-number conversion, executable, for running the storage
    functions on concrete stores.  Texts outside the fragment (fractions,
    exponents, escapes of code points past one byte) are refused. *)

Module Json.

Definition code (c : ascii) : Z := Z.of_N (N_of_ascii c).
Definition chr (n : Z) : ascii := ascii_of_N (Z.to_N n).

Definition is_ws (c : ascii) : bool :=
  let n := code c in (n =? 32) || (n =? 9) || (n =? 10) || (n =? 13).

Fixpoint skip_ws (s : string) : string :=
  match s with
  | String c s' => if is_ws c then skip_ws s' else s
  | EmptyString => s
  end.

Definition digit (c : ascii) : option Z :=
  let n := code c in
  if (48 <=? n) && (n <=? 57) then Some (n - 48) else None.

Definition is_digit (c : ascii) : bool :=
  match digit c with Some _ => true | None => false end.

Definition hex_digit (c : ascii) : option Z :=
  let n := code c in
  if (48 <=? n) && (n <=? 57) then Some (n - 48)
  else if (97 <=? n) && (n <=? 102) then Some (n - 87)
  else if (65 <=? n) && (n <=? 70) then Some (n - 55)
  else None.

Fixpoint digits (acc : Z) (s : string) : Z * string :=
  match s with
  | String c s' =>
      match digit c with
      | Some d => digits (10 * acc + d) s'
      | None => (acc, s)
      end
  | EmptyString => (acc, s)
  end.

Definition unsigned (s : string) : option (Z * string) :=
  match s with
  | String c s' =>
      match digit c with
      | Some d => if d =? 0 then Some (0, s') else Some (digits d s')
      | None => None
      end
  | EmptyString => None
  end.

Definition number (s : string) : option (Z * string) :=
  r ← match s with
      | String "-" s' => '(n, t) ← unsigned s'; Some (- n, t)
      | _ => unsigned s
      end;
  match r.2 with
  | String c _ =>
      let n := code c in
      if is_digit c || (n =? 46) || (n =? 101) || (n =? 69)
      then None else Some r
  | EmptyString => Some r
  end.

Definition unescape (e : ascii) : option ascii :=
  let n := code e in
  if (n =? 34) || (n =? 92) || (n =? 47) then Some e
  else if n =? 98 then Some (chr 8)
  else if n =? 102 then Some (chr 12)
  else if n =? 110 then Some (chr 10)
  else if n =? 114 then Some (chr 13)
  else if n =? 116 then Some (chr 9)
  else None.

Definition hex4 (s : string) : option (ascii * string) :=
  match s with
  | String a (String b (String c (String d t))) =>
      a' ← hex_digit a; b' ← hex_digit b; c' ← hex_digit c; d' ← hex_digit d;
      if (a' =? 0) && (b' =? 0) then Some (chr (16 * c' + d'), t) else None
  | _ => None
  end.

(** The characters after an opening quote, up to the closing one. *)
Fixpoint string_body (fuel : nat) (s : string) : option (string * string) :=
  match fuel with
  | O => None
  | S fuel' =>
      match s with
      | EmptyString => None
      | String c s' =>
          let n := code c in
          if n =? 34 then Some (EmptyString, s')
          else if n =? 92 then
            match s' with
            | String e s'' =>
                if code e =? 117 then
                  '(c', t) ← hex4 s'';
                  '(r, t') ← string_body fuel' t;
                  Some (String c' r, t')
                else
                  c' ← unescape e;
                  '(r, t) ← string_body fuel' s'';
                  Some (String c' r, t)
            | EmptyString => None
            end
          else if n <? 32 then None
          else '(r, t) ← string_body fuel' s'; Some (String c r, t)
      end
  end.

Fixpoint strip_prefix (p s : string) : option string :=
  match p, s with
  | EmptyString, _ => Some s
  | String a p', String b s' => if Ascii.eqb a b then strip_prefix p' s' else None
  | _, _ => None
  end.

Definition literal (s : string) : option (jsval * string) :=
  match strip_prefix "null" s, strip_prefix "true" s, strip_prefix "false" s with
  | Some t, _, _ => Some (JNull, t)
  | _, Some t, _ => Some (JBool true, t)
  | _, _, Some t => Some (JBool false, t)
  | _, _, _ => '(n, t) ← number s; Some (JNum n, t)
  end.

Fixpoint value (fuel : nat) (s : string) : option (jsval * string) :=
  match fuel with
  | O => None
  | S fuel' =>
      match skip_ws s with
      | EmptyString => None
      | String c s' =>
          let n := code c in
          if n =? 34 then
            '(str, t) ← string_body fuel' s'; Some (JStr str, t)
          else if n =? 91 then
            match skip_ws s' with
            | String c2 t =>
                if code c2 =? 93 then Some (JArr [], t)
                else '(l, t') ← elements fuel' s'; Some (JArr l, t')
            | EmptyString => None
            end
          else if n =? 123 then
            match skip_ws s' with
            | String c2 t =>
                if code c2 =? 125 then Some (JObj [], t)
                else
                  '(l, t') ← members fuel' s';
                  Some (JObj (foldl (λ acc kx, JS.set_prop kx.1 kx.2 acc) [] l), t')
            | EmptyString => None
            end
          else literal (String c s')
      end
  end
with elements (fuel : nat) (s : string) : option (list jsval * string) :=
  match fuel with
  | O => None
  | S fuel' =>
      '(v, t) ← value fuel' s;
      match skip_ws t with
      | String c t' =>
          if code c =? 44 then '(l, t'') ← elements fuel' t'; Some (v :: l, t'')
          else if code c =? 93 then Some ([v], t')
          else None
      | EmptyString => None
      end
  end
with members (fuel : nat) (s : string)
  : option (list (string * jsval) * string) :=
  match fuel with
  | O => None
  | S fuel' =>
      match skip_ws s with
      | String q s' =>
          if code q =? 34 then
            '(k, t) ← string_body fuel' s';
            match skip_ws t with
            | String c t2 =>
                if code c =? 58 then
                  '(v, t3) ← value fuel' t2;
                  match skip_ws t3 with
                  | String c' t4 =>
                      if code c' =? 44 then
                        '(l, t5) ← members fuel' t4; Some ((k, v) :: l, t5)
                      else if code c' =? 125 then Some ([(k, v)], t4)
                      else None
                  | EmptyString => None
                  end
                else None
            | EmptyString => None
            end
          else None
      | EmptyString => None
      end
  end.

(** [JSON.parse] *)
Definition parse (s : string) : option jsval :=
  '(v, t) ← value (2 * String.length s + 2) s;
  match skip_ws t with
  | EmptyString => Some v
  | _ => None
  end.

Definition hex_char (d : Z) : ascii :=
  if d <? 10 then chr (48 + d) else chr (87 + d).

Definition escape (c : ascii) : string :=
  let n := code c in
  let bs := chr 92 in
  if (n =? 34) || (n =? 92) then String bs (String c EmptyString)
  else if n =? 8 then String bs "b"
  else if n =? 12 then String bs "f"
  else if n =? 10 then String bs "n"
  else if n =? 13 then String bs "r"
  else if n =? 9 then String bs "t"
  else if n <? 32 then
    String bs ("u00" +:+ String (hex_char (n / 16)) (String (hex_char (n mod 16)) ""))
  else String c EmptyString.

Fixpoint escape_all (s : string) : string :=
  match s with
  | EmptyString => EmptyString
  | String c s' => escape c +:+ escape_all s'
  end.

Definition quote (s : string) : string :=
  String (chr 34) (escape_all s +:+ String (chr 34) EmptyString).

(** [JSON.stringify]; [None] is its answer [undefined]. *)
Fixpoint stringify (v : jsval) : option string :=
  match v with
  | JUndefined => None
  | JNull => Some "null"
  | JBool b => Some (if b then "true" else "false")
  | JNum n => Some (pretty n)
  | JStr s => Some (quote s)
  | JArr elems =>
      Some ("[" +:+
            String.concat ","
              (List.map (λ e, default "null" (stringify e)) elems) +:+ "]")
  | JObj props =>
      Some ("{" +:+
            String.concat ","
              (List.flat_map
                 (λ kx, match kx with
                        | (k, x) =>
                            match stringify x with
                            | Some t => [quote k +:+ ":" +:+ t]
                            | None => []
                            end
                        end)
                 props) +:+ "}")
  end.

(** StringToNumber on decimal integer literals. *)
Definition string_to_number (s : string) : option Z :=
  match skip_ws s with
  | EmptyString => Some 0
  | String c t =>
      let '(neg, u) :=
        if code c =? 45 then (true, t)
        else if code c =? 43 then (false, t)
        else (false, String c t) in
      match u with
      | String d _ =>
          if is_digit d then
            let '(n, rest) := digits 0 u in
            match skip_ws rest with
            | EmptyString => Some (if neg then - n else n)
            | _ => None
            end
          else None
      | EmptyString => None
      end
  end.

End Json.

(** [JSON.stringify] does not throw on a [jsval]; where it answers
    [undefined], [setItem] stores that word. *)
Definition reference_host : Host :=
  {| JSON_parse := Json.parse;
     JSON_stringify := λ v, Some (default "undefined" (Json.stringify v));
     StringToNumber := Json.string_to_number |}.

(** ** Form validation ([src/hooks/useForm.ts]) *)

Module Form.

Record ValidationRule (V : Type) := {
  validate : V → bool;
  message : string;
}.
Arguments validate {V} _ _.
Arguments message {V} _.

Record FieldConfig (V : Type) := {
  initialValue : V;
  rules : option (list (ValidationRule V));
}.
Arguments initialValue {V} _.
Arguments rules {V} _.

Section Fields.
Context {K V : Type}.

(** The [for ... of] loop over the rules. *)
Fixpoint first_failure (rs : list (ValidationRule V)) (value : V)
  : option string :=
  match rs with
  | [] => None
  | rule :: rs' =>
      if negb (validate rule value) then Some (message rule)
      else first_failure rs' value
  end.

(** [validateField]; [None] is [null].  [fields] is [config.fields], which
    has a configuration for every field name of the form's type. *)
Definition validateField (fields : K → FieldConfig V) (fieldName : K) (value : V)
  : option string :=
  let fieldConfig := fields fieldName in
  match rules fieldConfig with
  | None => None
  | Some rs => first_failure rs value
  end.

(** [r] is the first rule of [rs], in declared order, that rejects [value]. *)
Definition first_rejecting (rs : list (ValidationRule V)) (value : V)
    (r : ValidationRule V) : Prop :=
  ∃ before after,
    rs = before ++ r :: after ∧
    Forall (λ r', validate r' value = true) before ∧
    validate r value = false.

End Fields.

(** [validationRules.minLength] and [validationRules.maxLength]; an omitted
    or empty [message] gives the default text. *)
Definition or_default (message : option string) (text : string) : string :=
  match message with
  | Some m => if String.eqb m "" then text else m
  | None => text
  end.

Definition minLength (min : Z) (message : option string) : ValidationRule string :=
  {| validate := λ value, min <=? Z.of_nat (String.length value);
     message :=
       or_default message ("Must be at least " +:+ pretty min +:+ " characters") |}.

Definition maxLength (max : Z) (message : option string) : ValidationRule string :=
  {| validate := λ value, Z.of_nat (String.length value) <=? max;
     message :=
       or_default message ("Must be at most " +:+ pretty max +:+ " characters") |}.

(** A field with two rules that both reject the one-character value. *)
Definition code_field : FieldConfig string :=
  {| initialValue := "";
     rules := Some [minLength 2 (Some "Code must be at least 2 characters");
                    minLength 4 None;
                    maxLength 8 None] |}.

End Form.

(** ** Concrete carts and stores used below *)

Definition catalog_product (pid : string) (cost : Z) : Product :=
  {| id := pid; name := pid; category := shilajit; description := "";
     price := cost; originalPrice := None; image := ""; featured := false;
     inStock := true; weight := "20g"; benefits := []; tags := [] |}.

Definition p1 : Product := catalog_product "p1" 100.
Definition p2 : Product := catalog_product "p2" 50.

(** The scenario of the specification's section 8. *)
Definition scenario : list dispatch :=
  [(10, ADD_ITEM p1 2); (20, ADD_ITEM p2 1); (30, UPDATE_QUANTITY "p1" 0)].

(** A cart as [LOAD_CART] can install it: one line, totals that were never
    computed from it. *)
Definition stale_cart : Cart :=
  {| items := [mkCartItem p1 2 0]; totalItems := 0; totalPrice := 0 |}.

(** A cart record as the storage utility sees it. *)
Definition cart_json : jsval :=
  JObj
    [("items",
      JArr
        [JObj
           [("product", JObj [("id", JStr "p1"); ("price", JNum 100)]);
            ("quantity", JNum 2);
            ("addedAt", JNum 10)]]);
     ("totalItems", JNum 2);
     ("totalPrice", JNum 200)].

(** Data in the legacy shape: [cart] is the array of lines. *)
Definition legacy_json : jsval :=
  JObj
    [("cart",
      JArr
        [JObj
           [("product", JObj [("id", JStr "p1"); ("price", JNum 100)]);
            ("quantity", JNum 2);
            ("addedAt", JNum 10)]])].

(** A store holding a version-0 envelope of [legacy_json] under the cart
    key, as written by hand in the reference host's own notation. *)
Definition legacy_envelope_text : string :=
  default ""
    (Json.stringify
       (JObj [("version", JNum 0); ("data", legacy_json); ("timestamp", JNum 5)])).

Definition legacy_store : Storage := {[ "monnn_cart" := legacy_envelope_text ]}.

(** A store whose cart entry is not JSON. *)
Definition corrupt_store : Storage := {[ "monnn_cart" := "{oops" ]}.


Global Instance matches_dec productId item : Decision (matches productId item) :=
  decide (id (product item) = productId).

(** ** The provider's queries and [addToCart] ([CartProvider]) *)

Definition isInCart (cart : Cart) (productId : string) : bool :=
  existsb (λ item, String.eqb (id (product item)) productId) (items cart).

(** [item?.quantity || 0] for the first line of the product *)
Definition getItemQuantity (cart : Cart) (productId : string) : Z :=
  match
    List.find (λ item, String.eqb (id (product item)) productId) (items cart)
  with
  | Some item => if quantity item =? 0 then 0 else quantity item
  | None => 0
  end.

(** The state after a sequence of dispatches. *)
Definition run_to (state : Cart) (ds : list dispatch) : Cart :=
  fold_left (λ s d, cartReducer d.1 s d.2) ds state.

(** [addToCart] as the reducer state sees it: the optimistic dispatch at
    once; the dispatches that other calls make while the confirmation is
    pending; then nothing more when the confirmation resolves, and the
    rollback when it is rejected.  The notifications are left out. *)
Definition addToCart (now : Z) (product0 : Product) (quantity0 : Z)
    (pending : list dispatch) (confirmed : bool) (now' : Z) (state : Cart)
  : Cart :=
  let optimistic := cartReducer now state (OPTIMISTIC_ADD product0 quantity0) in
  let settled := run_to optimistic pending in
  if confirmed then settled
  else cartReducer now' settled (ROLLBACK_ADD (id product0)).

(** *** Specification-side notions for the provider *)

(** The product an action is about. *)
Definition about (a : CartAction) : option string :=
  match a with
  | ADD_ITEM P _ | OPTIMISTIC_ADD P _ => Some (id P)
  | REMOVE_ITEM productId | UPDATE_QUANTITY productId _
  | ROLLBACK_ADD productId => Some productId
  | CLEAR_CART | LOAD_CART _ => None
  end.

(** An action that is about another product than [productId], or empties
    the cart. *)
Definition spares (productId : string) (a : CartAction) : Prop :=
  match a with
  | LOAD_CART _ => False
  | CLEAR_CART => True
  | _ => about a ≠ Some productId
  end.

(** An action that adds does so with a quantity of at least one. *)
Definition adds_positive (a : CartAction) : Prop :=
  match a with
  | ADD_ITEM _ qty | OPTIMISTIC_ADD _ qty => 1 ≤ qty
  | _ => True
  end.

(** The product ids of the lines, in order. *)
Definition line_ids (l : list CartItem) : list string :=
  (λ item, id (product item)) <$> l.

(** The lines after adding to, and after removing, the first line of a
    product: what the add and rollback cases compute with [findIndex]. *)
Fixpoint add_line (now : Z) (P : Product) (qty : Z) (l : list CartItem)
  : list CartItem :=
  match l with
  | [] => [mkCartItem P qty now]
  | item :: l' =>
      if String.eqb (id (product item)) (id P)
      then with_quantity item (quantity item + qty) :: l'
      else item :: add_line now P qty l'
  end.

Fixpoint remove_first (productId : string) (l : list CartItem)
  : list CartItem :=
  match l with
  | [] => []
  | item :: l' =>
      if String.eqb (id (product item)) productId then l'
      else item :: remove_first productId l'
  end.

(** The lines after an action, as a function of the lines before. *)
Definition lines_after (now : Z) (a : CartAction) (l : list CartItem)
  : list CartItem :=
  match a with
  | ADD_ITEM P qty | OPTIMISTIC_ADD P qty => add_line now P qty l
  | REMOVE_ITEM productId =>
      List.filter (λ item, negb (String.eqb (id (product item)) productId)) l
  | UPDATE_QUANTITY productId qty =>
      if qty <=? 0 then
        List.filter (λ item, negb (String.eqb (id (product item)) productId)) l
      else
        (λ item, if String.eqb (id (product item)) productId
                 then with_quantity item qty else item) <$> l
  | CLEAR_CART => []
  | LOAD_CART payload => items payload
  | ROLLBACK_ADD productId => remove_first productId l
  end.

(** ** The form hook ([useForm] of [src/hooks/useForm.ts])

    An object used as a record is the list of its entries in key order,
    every key once; reading a missing key gives [undefined], here [None].
    A handler runs on the state of the latest render. *)

Module UseForm.
Import Form.

Section Records.
Context {K : Type} `{EqDecision K} {A : Type}.

(** [o[k]] *)
Fixpoint get (k : K) (o : list (K * A)) : option A :=
  match o with
  | [] => None
  | (k', x) :: rest => if decide (k' = k) then Some x else get k rest
  end.

(** [{ ...o, [k]: x }] *)
Fixpoint set (k : K) (x : A) (o : list (K * A)) : list (K * A) :=
  match o with
  | [] => [(k, x)]
  | (k', y) :: rest =>
      if decide (k' = k) then (k, x) :: rest else (k', y) :: set k x rest
  end.

End Records.

Record FieldError := {
  message : string;
  touched : bool;
}.

(** The four pieces of state of the hook; an entry of [errors] that holds
    [undefined] is [None]. *)
Record FormState (K V : Type) := {
  values : list (K * V);
  errors : list (K * option FieldError);
  isSubmitting : bool;
  submitError : option string;
}.
Arguments values {K V} _.
Arguments errors {K V} _.
Arguments isSubmitting {K V} _.
Arguments submitError {K V} _.

(** [config.fields]: its keys in order and the configuration of each. *)
Record FormConfig (K V : Type) := {
  fieldNames : list K;
  fields : K → FieldConfig V;
}.
Arguments fieldNames {K V} _.
Arguments fields {K V} _.

(** How the promise of [config.onSubmit] settles; a rejection carries the
    message of the [Error] thrown, or [None] for any other value. *)
Inductive outcome :=
| Resolved
| Rejected (error : option string).

(** Truthiness of a [string | null]. *)
Definition truthy (s : option string) : bool :=
  match s with
  | Some m => negb (String.eqb m "")
  | None => false
  end.

Section Hook.
Context {K V : Type} `{EqDecision K}.
Variable config : FormConfig K V.

(** The initializer of [values], also used after a submission and by
    [reset]. *)
Definition initialValues : list (K * V) :=
  fold_left (λ o key, set key (initialValue (fields config key)) o)
    (fieldNames config) [].

Definition initialState : FormState K V :=
  {| values := initialValues; errors := []; isSubmitting := false;
     submitError := None |}.

(** One round of the [forEach] of [validateForm]. *)
Definition validate_entry (acc : list (K * option FieldError) * bool)
    (entry : K * V) : list (K * option FieldError) * bool :=
  match validateField (fields config) entry.1 entry.2 with
  | Some m =>
      if truthy (Some m)
      then (set entry.1 (Some {| message := m; touched := true |}) acc.1, false)
      else acc
  | None => acc
  end.

(** [validateForm]: the answer and the state after [setErrors]. *)
Definition validateForm (st : FormState K V) : bool * FormState K V :=
  let '(newErrors, isValid) := fold_left validate_entry (values st) ([], true) in
  (isValid,
   {| values := values st; errors := newErrors;
      isSubmitting := isSubmitting st; submitError := submitError st |}).

(** [errors[fieldName]?.touched] *)
Definition touched_at (fieldName : K) (o : list (K * option FieldError)) : bool :=
  match get fieldName o with
  | Some (Some e) => touched e
  | _ => false
  end.

Definition handleChange (fieldName : K) (value : V) (st : FormState K V)
  : FormState K V :=
  {| values := set fieldName value (values st);
     errors :=
       if touched_at fieldName (errors st) then
         let error := validateField (fields config) fieldName value in
         set fieldName
           (match error with
            | Some m =>
                if truthy error then Some {| message := m; touched := true |}
                else None
            | None => None
            end)
           (errors st)
       else errors st;
     isSubmitting := isSubmitting st;
     submitError := if truthy (submitError st) then None else submitError st |}.

(** [handleBlur]; [None] when the field is not a key of [values], which the
    type of [fieldName] excludes. *)
Definition handleBlur (fieldName : K) (st : FormState K V)
  : option (FormState K V) :=
  value ← get fieldName (values st);
  let error := validateField (fields config) fieldName value in
  Some
    {| values := values st;
       errors :=
         set fieldName
           (Some {| message := (match error with
                                | Some m => if truthy error then m else ""
                                | None => ""
                                end);
                    touched := true |})
           (errors st);
       isSubmitting := isSubmitting st;
       submitError := submitError st |}.

(** [handleSubmit] up to its [await]: the state, and the values
    [config.onSubmit] is called with when it is called. *)
Definition handleSubmit_begin (st : FormState K V)
  : FormState K V * option (list (K * V)) :=
  if isSubmitting st then (st, None)
  else
    let cleared :=
      {| values := values st; errors := errors st;
         isSubmitting := isSubmitting st; submitError := None |} in
    let '(isValid, validated) := validateForm cleared in
    if negb isValid then (validated, None)
    else
      ({| values := values validated; errors := errors validated;
          isSubmitting := true; submitError := submitError validated |},
       Some (values st)).

(** [handleSubmit] from the settling of [config.onSubmit] on. *)
Definition handleSubmit_settle (o : outcome) (st : FormState K V)
  : FormState K V :=
  match o with
  | Resolved =>
      {| values := initialValues; errors := []; isSubmitting := false;
         submitError := submitError st |}
  | Rejected error =>
      {| values := values st; errors := errors st; isSubmitting := false;
         submitError :=
           Some match error with
                | Some m => m
                | None => "Submission failed"
                end |}
  end.

Definition reset (st : FormState K V) : FormState K V :=
  {| values := initialValues; errors := []; isSubmitting := isSubmitting st;
     submitError := None |}.

(** [hasErrors] *)
Definition hasErrors (st : FormState K V) : bool :=
  existsb
    (λ entry, match entry.2 with
              | Some e => truthy (Some (message e))
              | None => false
              end)
    (errors st).

(** *** Specification-side notions for the hook *)

(** The field passes: [validateField] reports nothing, or a rule's empty
    message, which every reader of the result takes for nothing. *)
Definition passes (fieldName : K) (value : V) : bool :=
  negb (truthy (validateField (fields config) fieldName value)).

End Hook.
End UseForm.

(** A form with one field, [code_field], holding a value too short for its
    first rule. *)
Definition code_form : UseForm.FormConfig string string :=
  {| UseForm.fieldNames := ["code"]; UseForm.fields := λ _, Form.code_field |}.

Definition short_code : UseForm.FormState string string :=
  {| UseForm.values := [("code", "a")]; UseForm.errors := [];
     UseForm.isSubmitting := false; UseForm.submitError := None |}.

Definition good_code : UseForm.FormState string string :=
  {| UseForm.values := [("code", "abcd")]; UseForm.errors := [];
     UseForm.isSubmitting := false; UseForm.submitError := None |}.

(** ** Functional helpers ([src/utils/helpers.ts]) *)

Module Helpers.

(** [fns.reduceRight((acc, fn) => fn(acc), initialValue)] *)
Definition compose {T : Type} (fns : list (T → T)) (initialValue : T) : T :=
  fold_right (λ fn acc, fn acc) initialValue fns.

(** [fns.reduce((acc, fn) => fn(acc), initialValue)] *)
Definition pipe {T : Type} (fns : list (T → T)) (initialValue : T) : T :=
  fold_left (λ acc fn, fn acc) fns initialValue.

(** [clonedObj[key] = x] on an object made by [{}]: the name [__proto__]
    is the inherited accessor, which sets the prototype and defines no
    property; prototypes are not part of a [jsval]. *)
Definition assign (key : string) (x : jsval) (clonedObj : list (string * jsval))
  : list (string * jsval) :=
  if String.eqb key "__proto__" then clonedObj else JS.set_prop key x clonedObj.

(** [deepClone] on the values of [jsval] (no [Date] among them).  [None] is
    the [TypeError] of calling [obj.hasOwnProperty] on an object whose own
    property of that name holds a value that is not a function. *)
Fixpoint deepClone (obj : jsval) : option jsval :=
  match obj with
  | JArr elems =>
      JArr <$>
      fold_right
        (λ item rest, match deepClone item, rest with
                      | Some c, Some cs => Some (c :: cs)
                      | _, _ => None
                      end)
        (Some []) elems
  | JObj props =>
      match JS.lookup_prop "hasOwnProperty" props with
      | Some _ => None
      | None =>
          JObj <$>
          fold_left
            (λ clonedObj kx,
               match clonedObj, deepClone kx.2 with
               | Some o, Some c => Some (assign kx.1 c o)
               | _, _ => None
               end)
            props (Some [])
      end
  | _ => Some obj
  end.

(** *** Specification-side notions for the helpers *)

(** A value [deepClone] copies exactly: every object in it has each key
    once, and no key named [hasOwnProperty] or [__proto__]. *)
Fixpoint plain (v : jsval) : bool :=
  match v with
  | JArr elems => forallb plain elems
  | JObj props =>
      bool_decide (NoDup props.*1) &&
      forallb
        (λ kx, negb (String.eqb kx.1 "hasOwnProperty") &&
               negb (String.eqb kx.1 "__proto__") && plain kx.2)
        props
  | _ => true
  end.

End Helpers.

(** ** [chunk] ([src/utils/helpers.ts])

    [array.reduce] with the index of the item.  The accumulator [chunks] is
    an array of arrays; the round for an item yields [None] where the source
    stores the item under a name that is not the index of a chunk or the
    next free index ([NaN] or [Infinity] for size 0, a negative number, an
    index past the end), so that the result is no longer a list of lists. *)

Module Chunk.

Fixpoint reduce_from {A B} (f : B → A → Z → B) (l : list A) (i : Z) (acc : B)
  : B :=
  match l with
  | [] => acc
  | x :: l' => reduce_from f l' (i + 1) (f acc x i)
  end.

(** [Math.floor(index / size)]; [None] when it is not a finite number. *)
Definition chunkIndex (index size : Z) : option Z :=
  if size =? 0 then None else Some (index / size).

Definition round {T} (size : Z) (chunks : option (list (list T))) (item : T)
    (index : Z) : option (list (list T)) :=
  cs ← chunks;
  i ← chunkIndex index size;
  if i <? 0 then None
  else
    match cs !! Z.to_nat i with
    | Some c => Some (<[Z.to_nat i := c ++ [item]]> cs)
    | None =>
        if (Z.to_nat i =? length cs)%nat then Some (cs ++ [[item]]) else None
    end.

Definition chunk {T} (array : list T) (size : Z) : option (list (list T)) :=
  reduce_from (round size) array 0 (Some []).

(** *** Specification-side: a list of chunks of one size

    Every chunk but the last has exactly [size] items, the last between one
    and [size]. *)
Definition chunked {T} (size : Z) (cs : list (list T)) : Prop :=
  ∃ full last,
    cs = full ++ last ∧
    Forall (λ c, Z.of_nat (length c) = size) full ∧
    (last = [] ∨
     ∃ c, last = [c] ∧ 1 ≤ Z.of_nat (length c) ∧ Z.of_nat (length c) ≤ size).

End Chunk.

(** ** Pagination of the product grid ([src/components/ProductGrid.tsx]) *)

Module ProductGrid.

(** [l.slice(start, end)]: a negative bound counts from the end, and both
    are clamped to the array. *)
Definition slice {A} (l : list A) (start end_ : Z) : list A :=
  let len := Z.of_nat (length l) in
  let k := if start <? 0 then Z.max (len + start) 0 else Z.min start len in
  let final := if end_ <? 0 then Z.max (len + end_) 0 else Z.min end_ len in
  take (Z.to_nat (final - k)) (drop (Z.to_nat k) l).

(** [Math.ceil(a / b)], exact on the lengths of arrays; [None] when the
    quotient is not a finite number. *)
Definition ceil_div (a b : Z) : option Z :=
  if b =? 0 then None else Some (- ((- a) / b)).

Record Pagination (A : Type) := {
  paginatedProducts : list A;
  totalPages : option Z;
  startIndex : Z;
  endIndex : Z;
}.
Arguments paginatedProducts {A} _.
Arguments totalPages {A} _.
Arguments startIndex {A} _.
Arguments endIndex {A} _.

(** The memoized pagination of the component. *)
Definition paginate {A} (products : list A) (itemsPerPage currentPage : Z)
  : Pagination A :=
  let total := ceil_div (Z.of_nat (length products)) itemsPerPage in
  let start := (currentPage - 1) * itemsPerPage in
  let end_ := start + itemsPerPage in
  let paginated := slice products start end_ in
  {| paginatedProducts := paginated;
     totalPages := total;
     startIndex := start + 1;
     endIndex := Z.min end_ (Z.of_nat (length products)) |}.

(** The handlers, for a finite number of pages. *)
Definition handlePrevPage (prev : Z) : Z := Z.max 1 (prev - 1).
Definition handleNextPage (totalPages prev : Z) : Z := Z.min totalPages (prev + 1).

End ProductGrid.

(** * Properties *)

(** ** Array methods *)

Section ArrayFacts.
Context {A : Type}.

Lemma reduce_sum (f : A → Z) (l : list A) (a : Z) :
  Array.reduce (λ sum x, sum + f x) a l = a + Zsum (f <$> l).
Proof.
  unfold Array.reduce. revert a.
  induction l as [|x l IH]; intros a.
  - simpl. lia.
  - cbn [fold_left]. rewrite IH, fmap_cons. unfold Zsum. cbn [foldr]. lia.
Qed.

Lemma findIndex_from_none (p : A → bool) (l : list A) (i : Z) :
  Forall (λ x, p x = false) l → Array.findIndex_from p l i = -1.
Proof.
  intros Hall. revert i.
  induction Hall as [|x l Hx _ IH]; intros i; cbn [Array.findIndex_from].
  - reflexivity.
  - rewrite Hx. apply IH.
Qed.

Lemma findIndex_from_none_inv (p : A → bool) (l : list A) (i : Z) :
  0 ≤ i → Array.findIndex_from p l i = -1 → Forall (λ x, p x = false) l.
Proof.
  revert i. induction l as [|x l IH]; intros i Hi; cbn [Array.findIndex_from].
  - constructor.
  - destruct (p x) eqn:Hx; [lia|].
    intros E. constructor; [done|]. apply (IH (i + 1)); [lia | done].
Qed.

Lemma findIndex_from_first (p : A → bool) (l1 : list A) (x : A) (l2 : list A)
    (i : Z) :
  Forall (λ y, p y = false) l1 → p x = true →
  Array.findIndex_from p (l1 ++ x :: l2) i = i + Z.of_nat (length l1).
Proof.
  intros Hall Hx. revert i.
  induction Hall as [|y l1 Hy _ IH]; intros i;
    cbn [app Array.findIndex_from length].
  - rewrite Hx. lia.
  - rewrite Hy, IH. lia.
Qed.

(** A list with an element satisfying a decidable [P] splits at the first
    such element. *)
Lemma first_split (P : A → Prop) `{!∀ x, Decision (P x)} (l : list A) :
  (∃ x, x ∈ l ∧ P x) →
  ∃ l1 x l2, l = l1 ++ x :: l2 ∧ Forall (λ y, ¬ P y) l1 ∧ P x.
Proof.
  induction l as [|y l IH]; intros (x & Hin & HP).
  - by apply elem_of_nil in Hin.
  - destruct (decide (P y)) as [Hy|Hy].
    + exists [], y, l. by repeat split.
    + apply elem_of_cons in Hin as [->|Hin]; [done|].
      destruct IH as (l1 & z & l2 & -> & Hl1 & Hz); [by exists x|].
      exists (y :: l1), z, l2. repeat split; [by constructor | done].
Qed.

Lemma map_from_ignore_index {B} (g : A → B) (l : list A) (i : Z) :
  Array.map_from (λ x _, g x) l i = g <$> l.
Proof.
  revert i. induction l as [|x l IH]; intros i; simpl; [done|]. by rewrite IH.
Qed.

Lemma map_from_miss (g : A → A) (k : Z) (l : list A) (i : Z) :
  k < i ∨ i + Z.of_nat (length l) ≤ k →
  Array.map_from (λ x index, if index =? k then g x else x) l i = l.
Proof.
  revert i. induction l as [|x l IH]; intros i Hk; simpl; [done|].
  simpl in Hk. destruct (Z.eqb_spec i k) as [->|_]; [lia|].
  rewrite IH; [done | lia].
Qed.

Lemma map_from_hit (g : A → A) (l1 : list A) (x : A) (l2 : list A) (i k : Z) :
  k = i + Z.of_nat (length l1) →
  Array.map_from (λ y index, if index =? k then g y else y) (l1 ++ x :: l2) i
  = l1 ++ g x :: l2.
Proof.
  revert i. induction l1 as [|y l1 IH]; intros i Hk;
    cbn [app Array.map_from length] in *.
  - destruct (Z.eqb_spec i k) as [_|?]; [|lia].
    f_equal. apply map_from_miss. lia.
  - destruct (Z.eqb_spec i k) as [?|_]; [lia|].
    f_equal. apply IH. lia.
Qed.

Lemma filter_from_miss (k : Z) (l : list A) (i : Z) :
  k < i ∨ i + Z.of_nat (length l) ≤ k →
  Array.filter_from (λ _ index, negb (index =? k)) l i = l.
Proof.
  revert i. induction l as [|x l IH]; intros i Hk; simpl; [done|].
  simpl in Hk. destruct (Z.eqb_spec i k) as [->|_]; [lia|]. simpl.
  rewrite IH; [done | lia].
Qed.

Lemma filter_from_hit (l1 : list A) (x : A) (l2 : list A) (i k : Z) :
  k = i + Z.of_nat (length l1) →
  Array.filter_from (λ _ index, negb (index =? k)) (l1 ++ x :: l2) i = l1 ++ l2.
Proof.
  revert i. induction l1 as [|y l1 IH]; intros i Hk;
    cbn [app Array.filter_from length] in *.
  - destruct (Z.eqb_spec i k) as [_|?]; [|lia]. cbn [negb].
    apply filter_from_miss. lia.
  - destruct (Z.eqb_spec i k) as [?|_]; [lia|]. cbn [negb].
    f_equal. apply IH. lia.
Qed.

Lemma filter_from_ignore_index (p : A → bool) (l : list A) (i : Z) :
  Array.filter_from (λ x _, p x) l i = List.filter p l.
Proof.
  revert i. induction l as [|x l IH]; intros i; simpl; [done|].
  rewrite IH. by destruct (p x).
Qed.

End ArrayFacts.

(** ** The cart reducer *)

Lemma absent_Forall (productId : string) (l : list CartItem) :
  absent productId l ↔
  Forall (λ item, String.eqb (id (product item)) productId = false) l.
Proof.
  unfold absent, matches. rewrite Forall_forall.
  split; intros H item Hin; specialize (H item Hin).
  - by apply String.eqb_neq.
  - by apply String.eqb_neq in H.
Qed.

Lemma absent_Forall_not (productId : string) (l : list CartItem) :
  absent productId l ↔ Forall (λ item, ¬ matches productId item) l.
Proof. unfold absent. by rewrite Forall_forall. Qed.

Lemma absent_app (productId : string) (l1 l2 : list CartItem) :
  absent productId (l1 ++ l2) ↔ absent productId l1 ∧ absent productId l2.
Proof. rewrite !absent_Forall_not. apply Forall_app. Qed.

Lemma calculateCartTotals_holds (c : Cart) : totals_hold (calculateCartTotals c).
Proof.
  unfold totals_hold, calculateCartTotals. cbn [items totalItems totalPrice].
  rewrite !reduce_sum. split; [apply Z.add_0_l|].
  rewrite Z.add_0_l. f_equal. apply list_fmap_ext. intros _ item _. lia.
Qed.

Lemma calculateCartTotals_fixed (c : Cart) :
  totals_hold c → calculateCartTotals c = c.
Proof.
  destruct c as [l n m]. unfold totals_hold, calculateCartTotals.
  cbn [items totalItems totalPrice]. intros [-> ->].
  rewrite !reduce_sum. f_equal.
  rewrite Z.add_0_l. f_equal. apply list_fmap_ext. intros _ item _. lia.
Qed.

Lemma calculate_with_items (c c' : Cart) (l : list CartItem) :
  calculateCartTotals (with_items c l) = calculateCartTotals (with_items c' l).
Proof. reflexivity. Qed.

Lemma with_items_same (c : Cart) : with_items c (items c) = c.
Proof. by destruct c. Qed.

(** Every action but [LOAD_CART] and a [ROLLBACK_ADD] that finds no line
    ends in [calculateCartTotals] or in the empty cart. *)
Lemma reducer_restores (now : Z) (state : Cart) (a : CartAction) :
  is_LOAD_CART a = false →
  (∀ productId, a = ROLLBACK_ADD productId → ¬ absent productId (items state)) →
  totals_hold (cartReducer now state a).
Proof.
  intros Ha Hrb. destruct a as [P q|pid|pid q| |c|P q|pid];
    cbn [cartReducer]; try discriminate Ha;
    try apply calculateCartTotals_holds.
  - destruct (q <=? 0); apply calculateCartTotals_holds.
  - by split.
  - destruct (_ =? -1) eqn:E; [|apply calculateCartTotals_holds].
    exfalso. apply (Hrb pid eq_refl). apply absent_Forall.
    apply Z.eqb_eq in E. by apply findIndex_from_none_inv in E.
Qed.

Lemma reducer_preserves (now : Z) (state : Cart) (a : CartAction) :
  is_LOAD_CART a = false → totals_hold state →
  totals_hold (cartReducer now state a).
Proof.
  intros Ha Hs. destruct a; try (by apply reducer_restores).
  cbn [cartReducer]. destruct (_ =? -1); [done | apply calculateCartTotals_holds].
Qed.

Lemma run_preserves (state : Cart) (ds : list dispatch) :
  totals_hold state →
  Forall (λ d, is_LOAD_CART d.2 = false) ds →
  Forall totals_hold (run state ds).
Proof.
  intros Hs Hds. revert state Hs.
  induction Hds as [|[now a] ds Ha _ IH]; intros state Hs; cbn [run].
  - constructor.
  - assert (totals_hold (cartReducer now state a)) by by apply reducer_preserves.
    constructor; [done | by apply IH].
Qed.

(** C1.  Starting from the empty cart, after each action of any sequence of
    [ADD_ITEM], [OPTIMISTIC_ADD], [ROLLBACK_ADD], [REMOVE_ITEM],
    [UPDATE_QUANTITY] and [CLEAR_CART] actions (any sequence without
    [LOAD_CART]) the cart has [totalItems] equal to the sum of the quantities
    and [totalPrice] equal to the sum of quantity times price, exactly. *)
Theorem totals_invariant (ds : list dispatch) :
  Forall (λ d, is_LOAD_CART d.2 = false) ds →
  Forall totals_hold (run initialCart ds).
Proof. apply run_preserves. by split. Qed.

Lemma totals_invariant_witness :
  Forall (λ d, is_LOAD_CART d.2 = false) scenario ∧
  Forall totals_hold (run initialCart scenario).
Proof.
  assert (H : Forall (λ d : dispatch, is_LOAD_CART d.2 = false) scenario)
    by (repeat constructor).
  split; [exact H | exact (totals_invariant scenario H)].
Defined.

Lemma add_new (now : Z) (state : Cart) (P : Product) (qty : Z) :
  absent (id P) (items state) →
  items (cartReducer now state (ADD_ITEM P qty))
  = items state ++ [mkCartItem P qty now].
Proof.
  intros Habs. apply absent_Forall in Habs.
  cbn [cartReducer]. unfold Array.findIndex.
  by rewrite (findIndex_from_none _ _ _ Habs).
Qed.

Lemma add_existing (now : Z) (state : Cart) (P : Product) (qty : Z)
    (before : list CartItem) (item : CartItem) (after : list CartItem) :
  items state = before ++ item :: after →
  absent (id P) before → matches (id P) item →
  items (cartReducer now state (ADD_ITEM P qty))
  = before ++ with_quantity item (quantity item + qty) :: after.
Proof.
  intros Hsplit Habs Hm. apply absent_Forall in Habs.
  apply String.eqb_eq in Hm.
  cbn [cartReducer]. unfold Array.findIndex, Array.map. rewrite Hsplit.
  rewrite (findIndex_from_first _ _ _ _ _ Habs Hm).
  destruct (Z.ltb_spec (-1) (0 + Z.of_nat (length before))) as [_|?]; [|lia].
  cbn [calculateCartTotals with_items items].
  by apply (map_from_hit (λ it, with_quantity it (quantity it + qty))).
Qed.

(** C2.  [ADD_ITEM] of a product whose id some line already has adds the
    quantity to the first such line, which stays where it is among the other
    lines, themselves unchanged; otherwise it appends a new line at the end.
    In particular, on a cart holding neither [P] nor [B], adding [P], then
    [B], then [P] again leaves the old lines followed by one line for [P]
    with the sum of both quantities, at the place of its first insertion, and
    one line for [B] after it.  Nothing of this needs [qty >= 1]. *)
Theorem add_item_merges_or_appends (now : Z) (state : Cart) (P : Product)
    (qty : Z) :
  ((∃ item, item ∈ items state ∧ matches (id P) item) →
   ∃ before item after,
     items state = before ++ item :: after ∧
     absent (id P) before ∧ matches (id P) item ∧
     items (cartReducer now state (ADD_ITEM P qty))
     = before ++ with_quantity item (quantity item + qty) :: after) ∧
  (absent (id P) (items state) →
   items (cartReducer now state (ADD_ITEM P qty))
   = items state ++ [mkCartItem P qty now]) ∧
  (∀ (B : Product) (qtyB qty' now2 now3 : Z),
     id P ≠ id B →
     absent (id P) (items state) → absent (id B) (items state) →
     items
       (cartReducer now3
          (cartReducer now2 (cartReducer now state (ADD_ITEM P qty))
             (ADD_ITEM B qtyB))
          (ADD_ITEM P qty'))
     = items state ++ [mkCartItem P (qty + qty') now; mkCartItem B qtyB now2]).
Proof.
  split; [|split].
  - intros Hex.
    apply (first_split (matches (id P))) in Hex
      as (before & item & after & Hsplit & Hbefore & Hm).
    apply absent_Forall_not in Hbefore.
    exists before, item, after. repeat split; try done.
    by apply add_existing.
  - apply add_new.
  - intros B qtyB qty' now2 now3 Hne HP HB.
    pose proof (add_new now state P qty HP) as H1.
    set (s1 := cartReducer now state (ADD_ITEM P qty)) in *.
    assert (HB1 : absent (id B) (items s1)).
    { rewrite H1. apply absent_app. split; [done|].
      intros item ->%list_elem_of_singleton Hm. by apply Hne. }
    pose proof (add_new now2 s1 B qtyB HB1) as H2.
    set (s2 := cartReducer now2 s1 (ADD_ITEM B qtyB)) in *.
    rewrite (add_existing now3 s2 P qty' (items state)
               (mkCartItem P qty now) [mkCartItem B qtyB now2]).
    + done.
    + rewrite H2, H1. by rewrite <- app_assoc.
    + done.
    + done.
Qed.

Lemma add_item_merges_or_appends_witness :
  items
    (cartReducer 30
       (cartReducer 20 (cartReducer 10 initialCart (ADD_ITEM p1 2))
          (ADD_ITEM p2 1))
       (ADD_ITEM p1 3))
  = [mkCartItem p1 5 10; mkCartItem p2 1 20].
Proof.
  refine (proj2 (proj2 (add_item_merges_or_appends 10 initialCart p1 2))
            p2 1 3 20 30 _ _ _).
  - discriminate.
  - intros item Hin. by apply elem_of_nil in Hin.
  - intros item Hin. by apply elem_of_nil in Hin.
Defined.

(** C5.  [OPTIMISTIC_ADD] and [ADD_ITEM] of the same product and quantity,
    handled at the same clock value, produce the same cart from every
    cart. *)
Theorem optimistic_add_is_add_item (now : Z) (state : Cart) (P : Product)
    (qty : Z) :
  cartReducer now state (OPTIMISTIC_ADD P qty)
  = cartReducer now state (ADD_ITEM P qty).
Proof. reflexivity. Qed.

Lemma rollback_absent (now : Z) (state : Cart) (productId : string) :
  absent productId (items state) →
  cartReducer now state (ROLLBACK_ADD productId) = state.
Proof.
  intros Habs. apply absent_Forall in Habs.
  cbn [cartReducer]. unfold Array.findIndex.
  by rewrite (findIndex_from_none _ _ _ Habs).
Qed.

(** C10 (amended).  [LOAD_CART] returns its payload as it is, whatever the
    state: the totals are the payload's, not recomputed.  So a payload whose
    totals disagree with its lines leaves a state that violates the totals
    invariant.  The violation ends with the next action that is neither
    [LOAD_CART] nor a [ROLLBACK_ADD] of a product the payload has no line
    for: each such action recomputes the totals or empties the cart.  A
    [ROLLBACK_ADD] of a product the payload has no line for returns the
    state as it is, and the violation stays. *)
Theorem load_cart_verbatim (now : Z) (state payload : Cart) :
  cartReducer now state (LOAD_CART payload) = payload ∧
  (¬ totals_hold payload →
   ¬ totals_hold (cartReducer now state (LOAD_CART payload))) ∧
  (∀ (now' : Z) (a : CartAction),
     is_LOAD_CART a = false →
     (∀ productId,
        a = ROLLBACK_ADD productId → ¬ absent productId (items payload)) →
     totals_hold
       (cartReducer now' (cartReducer now state (LOAD_CART payload)) a)) ∧
  (∀ (now' : Z) (productId : string),
     absent productId (items payload) →
     cartReducer now' (cartReducer now state (LOAD_CART payload))
       (ROLLBACK_ADD productId)
     = payload).
Proof.
  split; [reflexivity | split; [|split]].
  - intros H. exact H.
  - intros now' a Ha Hrb. by apply reducer_restores.
  - intros now' productId Habs. by apply rollback_absent.
Qed.

Lemma load_cart_verbatim_witness :
  cartReducer 0 initialCart (LOAD_CART stale_cart) = stale_cart ∧
  ¬ totals_hold (cartReducer 0 initialCart (LOAD_CART stale_cart)) ∧
  totals_hold
    (cartReducer 1 (cartReducer 0 initialCart (LOAD_CART stale_cart))
       (UPDATE_QUANTITY "p1" 3)) ∧
  cartReducer 1 (cartReducer 0 initialCart (LOAD_CART stale_cart))
    (ROLLBACK_ADD "p9")
  = stale_cart.
Proof.
  destruct (load_cart_verbatim 0 initialCart stale_cart) as (H1 & H2 & H3 & H4).
  split; [exact H1 | split; [|split]].
  - apply H2. intros [H _]. discriminate H.
  - apply H3; [reflexivity | discriminate].
  - apply H4. intros item Hin.
    apply list_elem_of_singleton in Hin as ->. discriminate.
Defined.

(** C10 as stated fails when the next action is a [ROLLBACK_ADD] that finds
    no line: it is not a [LOAD_CART], and the state it returns still has the
    payload's totals, which disagree with the lines. *)
Lemma load_cart_counterexample :
  is_LOAD_CART (ROLLBACK_ADD "p9") = false ∧
  ¬ totals_hold
      (cartReducer 1 (cartReducer 0 initialCart (LOAD_CART stale_cart))
         (ROLLBACK_ADD "p9")).
Proof.
  split; [reflexivity|]. intros [H _]. vm_compute in H. discriminate H.
Qed.

Lemma remove_items (state : Cart) (productId : string) :
  items (reduce_REMOVE_ITEM state productId)
  = List.filter (λ item, negb (String.eqb (id (product item)) productId))
      (items state).
Proof.
  unfold reduce_REMOVE_ITEM, Array.filter.
  cbn [calculateCartTotals with_items items].
  apply (filter_from_ignore_index
           (λ item, negb (String.eqb (id (product item)) productId))).
Qed.


Lemma filter_absent (productId : string) (l : list CartItem) :
  absent productId l →
  List.filter (λ item, negb (String.eqb (id (product item)) productId)) l = l.
Proof.
  intros Habs. apply absent_Forall in Habs.
  induction Habs as [|x l Hx _ IH]; cbn [List.filter]; [done|].
  by rewrite Hx, IH.
Qed.






Lemma rollback_first (now : Z) (state : Cart) (productId : string)
    (before : list CartItem) (item : CartItem) (after : list CartItem) :
  items state = before ++ item :: after →
  absent productId before → matches productId item →
  cartReducer now state (ROLLBACK_ADD productId)
  = calculateCartTotals (with_items state (before ++ after)).
Proof.
  intros Hsplit Habs Hm. apply absent_Forall in Habs.
  apply String.eqb_eq in Hm.
  cbn [cartReducer]. unfold Array.findIndex, Array.filter. rewrite Hsplit.
  rewrite (findIndex_from_first _ _ _ _ _ Habs Hm).
  destruct (Z.eqb_spec (0 + Z.of_nat (length before)) (-1)) as [?|_]; [lia|].
  by rewrite (filter_from_hit before item after 0).
Qed.

(** C4 (amended).  [ROLLBACK_ADD] returns the cart as it is when no line
    has the product id; otherwise it removes the first line that has it,
    whatever its quantity, keeps the other lines in order and recomputes the
    totals.  After [OPTIMISTIC_ADD] of a product [P] the cart had no line
    for, [ROLLBACK_ADD] of [P]'s id gives back the lines of the cart before
    the add, with totals computed from them: the cart before the add itself
    when its totals agreed with its lines.  When [P] already had a line, the
    same pair of actions removes that line with all of its quantity. *)
Theorem rollback_add_behaviour (now : Z) (state : Cart) (productId : string) :
  (absent productId (items state) →
   cartReducer now state (ROLLBACK_ADD productId) = state) ∧
  ((∃ item, item ∈ items state ∧ matches productId item) →
   ∃ before item after,
     items state = before ++ item :: after ∧
     absent productId before ∧ matches productId item ∧
     items (cartReducer now state (ROLLBACK_ADD productId)) = before ++ after ∧
     totals_hold (cartReducer now state (ROLLBACK_ADD productId))) ∧
  (∀ (P : Product) (qty now' : Z),
     id P = productId →
     let state' :=
       cartReducer now' (cartReducer now state (OPTIMISTIC_ADD P qty))
         (ROLLBACK_ADD productId) in
     (absent productId (items state) →
      items state' = items state ∧ totals_hold state' ∧
      (totals_hold state → state' = state)) ∧
     (∀ before item after,
        items state = before ++ item :: after →
        absent productId before → matches productId item →
        items state' = before ++ after)).
Proof.
  split; [|split].
  - apply rollback_absent.
  - intros Hex.
    apply (first_split (matches productId)) in Hex
      as (before & item & after & Hsplit & Hbefore & Hm).
    apply absent_Forall_not in Hbefore.
    exists before, item, after. repeat split; try done.
    + by rewrite (rollback_first now state productId before item after).
    + rewrite (rollback_first now state productId before item after) by done.
      apply calculateCartTotals_holds.
    + rewrite (rollback_first now state productId before item after) by done.
      apply calculateCartTotals_holds.
  - intros P qty now' <-. cbv zeta.
    change (cartReducer now state (OPTIMISTIC_ADD P qty))
      with (cartReducer now state (ADD_ITEM P qty)).
    split.
    + intros Habs.
      pose proof (add_new now state P qty Habs) as Hadd.
      pose proof (rollback_first now' _ (id P) (items state)
                    (mkCartItem P qty now) [] Hadd Habs eq_refl) as Hrb.
      rewrite app_nil_r in Hrb. rewrite Hrb.
      split; [done | split; [apply calculateCartTotals_holds|]].
      intros Hs.
      rewrite (calculate_with_items _ state), with_items_same.
      by apply calculateCartTotals_fixed.
    + intros before item after Hsplit Habs Hm.
      pose proof (add_existing now state P qty before item after Hsplit Habs Hm)
        as Hadd.
      by rewrite (rollback_first now' _ (id P) before
                    (with_quantity item (quantity item + qty)) after Hadd Habs Hm).
Qed.

Lemma rollback_add_behaviour_witness :
  cartReducer 2 (cartReducer 1 initialCart (OPTIMISTIC_ADD p1 2))
    (ROLLBACK_ADD "p1")
  = initialCart.
Proof.
  refine (proj2 (proj2 (proj1
            (proj2 (proj2 (rollback_add_behaviour 1 initialCart "p1"))
               p1 2 2 eq_refl) _)) _).
  - intros item Hin. by apply elem_of_nil in Hin.
  - by split.
Defined.

(** C4 as stated fails on a cart whose totals were never computed from its
    lines: after [OPTIMISTIC_ADD] and [ROLLBACK_ADD] of a product it had no
    line for, the lines are back but the totals are recomputed, so the cart
    is not the one before the add. *)
Lemma rollback_add_counterexample :
  absent (id p2) (items stale_cart) ∧
  cartReducer 2 (cartReducer 1 stale_cart (OPTIMISTIC_ADD p2 2))
    (ROLLBACK_ADD (id p2))
  ≠ stale_cart.
Proof.
  split.
  - intros item ->%list_elem_of_singleton. discriminate.
  - discriminate.
Qed.

(** ** The storage utility *)

Section StorageFacts.
Context `{!Host}.
Import StorageUtil.

Lemma get_version (v : Z) (d : jsval) (t : Z) :
  JS.Get (StorageData v d t) "version" = Some (JNum v).
Proof. reflexivity. Qed.

Lemma get_data (v : Z) (d : jsval) (t : Z) :
  JS.Get (StorageData v d t) "data" = Some d.
Proof. reflexivity. Qed.

Lemma lookup_set_prop (k : string) (x : jsval) (props : list (string * jsval)) :
  JS.lookup_prop k (JS.set_prop k x props) = Some x.
Proof.
  induction props as [|[k' y] props IH]; cbn [JS.set_prop JS.lookup_prop].
  - by rewrite String.eqb_refl.
  - destruct (String.eqb k' k) eqn:E; cbn [JS.lookup_prop].
    + by rewrite String.eqb_refl.
    + by rewrite E.
Qed.

Lemma truthy_Get (v : jsval) (k : string) :
  JS.truthy v = true → ∃ x, JS.Get v k = Some x.
Proof. destruct v; cbn [JS.truthy]; try discriminate; intros _; by eexists. Qed.

(** The transform of version 0, by cases on the shape of the data. *)
Lemma migration_0_legacy (data cart : jsval) :
  legacy_cart data cart → migration_0 data = Some (upgraded data cart).
Proof.
  intros (Hc & Ht & x & Hx & Hf). unfold migration_0.
  rewrite Hc. cbn [mbind option_bind]. rewrite Ht, Hx.
  cbn [mbind option_bind]. by rewrite Hf.
Qed.

Lemma migration_0_other (data : jsval) :
  (∀ cart, ¬ legacy_cart data cart) →
  migration_0 data = Some data ∨ migration_0 data = None.
Proof.
  intros Hno. unfold migration_0.
  destruct (JS.Get data "cart") as [cart|] eqn:Hc; cbn [mbind option_bind];
    [|by right].
  destruct (JS.truthy cart) eqn:Ht; [|by left].
  destruct (truthy_Get cart "items" Ht) as [x Hx]. rewrite Hx.
  cbn [mbind option_bind].
  destruct (JS.truthy x) eqn:Hf; cbn [negb]; [by left|].
  exfalso. apply (Hno cart). repeat split; try done. by exists x.
Qed.

Lemma migrate_loop_chain (n : nat) (v : Z) (data : jsval) :
  v + Z.of_nat n ≤ STORAGE_VERSION →
  migrate_loop n v data = apply_chain (seqZ v (Z.of_nat n)) data.
Proof.
  revert v data. induction n as [|n IH]; intros v data Hv.
  - reflexivity.
  - rewrite seqZ_cons by lia. cbn [migrate_loop apply_chain].
    destruct (Z.ltb_spec v STORAGE_VERSION) as [_|?]; [|lia].
    replace (Z.pred (Z.of_nat (S n))) with (Z.of_nat n) by lia.
    unfold migrate_step.
    destruct (migrations (pretty v)) as [f|]; cbn [mbind option_bind].
    + destruct (f data) as [d|]; [|done]. apply IH. lia.
    + apply IH. lia.
Qed.

(** From a numeric version the loop of [migrateData] is the chain of the
    versions from it up to the one before the current, in ascending order. *)
Lemma migrateData_chain (data : jsval) (v : Z) :
  migrateData data (JNum v)
  = apply_chain (seqZ v (STORAGE_VERSION - v)) data.
Proof.
  unfold migrateData, lessThan. cbn [ToNumber].
  destruct (Z.ltb_spec v STORAGE_VERSION) as [Hlt|Hge].
  - rewrite seqZ_cons by lia. cbn [apply_chain JS.ToString].
    unfold migrate_step.
    replace (Z.pred (STORAGE_VERSION - v))
      with (Z.of_nat (Z.to_nat (STORAGE_VERSION - (v + 1)))) by lia.
    replace (Z.succ v) with (v + 1) by lia.
    destruct (migrations (pretty v)) as [f|]; cbn [mbind option_bind].
    + destruct (f data) as [d|]; [|done]. apply migrate_loop_chain. lia.
    + apply migrate_loop_chain. lia.
  - by rewrite seqZ_nil by lia.
Qed.

Lemma migrateData_0 (data : jsval) : migrateData data (JNum 0) = migration_0 data.
Proof.
  rewrite migrateData_chain.
  change (seqZ 0 (STORAGE_VERSION - 0)) with [0]. cbn [apply_chain].
  change (migrations (pretty 0)) with (Some migration_0). cbv iota.
  by destruct (migration_0 data).
Qed.

Lemma load_current (st : Storage) (key item : string) (env version data d : jsval)
    (now : Z) :
  st !! key = Some item → item ≠ "" → JSON_parse item = Some env →
  JS.Get env "version" = Some version →
  lessThan version STORAGE_VERSION = false →
  JS.Get env "data" = Some data →
  loadFromStorage st key d now = Normal (data, st).
Proof.
  intros Hitem Hne Hparse Hv Hlt Hd.
  unfold loadFromStorage, loadFromStorage_try, safeJsonParse.
  apply String.eqb_neq in Hne.
  rewrite Hitem, Hne, Hparse, Hv. cbn [mbind option_bind].
  by rewrite Hlt, Hd.
Qed.

Lemma load_older (st : Storage) (key item : string) (env version data d : jsval)
    (now : Z) :
  st !! key = Some item → item ≠ "" → JSON_parse item = Some env →
  JS.Get env "version" = Some version →
  lessThan version STORAGE_VERSION = true →
  JS.Get env "data" = Some data →
  loadFromStorage st key d now
  = match migrateData data version with
    | Some m => Normal (m, saveToStorage st key m now)
    | None => Normal (d, st)
    end.
Proof.
  intros Hitem Hne Hparse Hv Hlt Hd.
  unfold loadFromStorage, loadFromStorage_try, safeJsonParse.
  apply String.eqb_neq in Hne.
  rewrite Hitem, Hne, Hparse, Hv. cbn [mbind option_bind].
  rewrite Hlt, Hd. cbn [mbind option_bind].
  by destruct (migrateData data version).
Qed.

Lemma load_corrupt (st : Storage) (key item : string) (d : jsval) (now : Z) :
  st !! key = Some item → item ≠ "" → JSON_parse item = None →
  loadFromStorage st key d now
  = match migration_0 d with
    | Some m => Normal (m, saveToStorage st key m now)
    | None => Normal (d, st)
    end.
Proof.
  intros Hitem Hne Hparse.
  unfold loadFromStorage, loadFromStorage_try, safeJsonParse.
  apply String.eqb_neq in Hne.
  rewrite Hitem, Hne, Hparse, get_version. cbn [mbind option_bind].
  change (lessThan (JNum 0) STORAGE_VERSION) with true. cbv iota.
  rewrite get_data. cbn [mbind option_bind]. rewrite migrateData_0.
  by destruct (migration_0 d).
Qed.

Lemma save_lookup (st : Storage) (key : string) (X : jsval) (now : Z) (s : string) :
  key ≠ VERSION_KEY →
  JSON_stringify (StorageData STORAGE_VERSION X now) = Some s →
  saveToStorage st key X now !! key = Some s.
Proof.
  intros Hkey Hs. unfold saveToStorage. rewrite Hs.
  rewrite lookup_insert_ne by done. apply lookup_insert_eq.
Qed.

Lemma load_after_save (st : Storage) (key : string) (X d : jsval) (now now' : Z) :
  key ≠ VERSION_KEY →
  round_trips (StorageData STORAGE_VERSION X now) →
  (∃ s, saveToStorage st key X now !! key = Some s ∧
        JSON_parse s = Some (StorageData STORAGE_VERSION X now)) ∧
  loadFromStorage (saveToStorage st key X now) key d now'
  = Normal (X, saveToStorage st key X now).
Proof.
  intros Hkey (s & Hs & Hne & Hparse).
  pose proof (save_lookup st key X now s Hkey Hs) as Hlook.
  split; [by exists s|].
  eapply load_current; try done.
Qed.

(** C6 (amended).  For every key other than the key of the version marker
    and every value [X] whose envelope the host's codec round-trips, [save]
    leaves under the key a text of the envelope tagged with the current
    schema version, and a [load] of the key then returns [X] and leaves the
    store as it is. *)
Theorem save_then_load (st : Storage) (key : string) (X defaultValue : jsval)
    (now now' : Z) :
  key ≠ VERSION_KEY →
  round_trips (StorageData STORAGE_VERSION X now) →
  let st' := saveToStorage st key X now in
  (∃ s, st' !! key = Some s ∧
        JSON_parse s = Some (StorageData STORAGE_VERSION X now)) ∧
  loadFromStorage st' key defaultValue now' = Normal (X, st').
Proof. intros Hkey Hrt. cbv zeta. by apply load_after_save. Qed.

(** C7 (amended).  With nothing stored under the key, and with the empty
    text stored under it, [load] returns the default and leaves the store
    alone.  With a stored text that is not empty and does not deserialize,
    [load] returns the default when the default is not in the legacy shape;
    when the default is in the legacy shape it returns the default as
    upgraded by the version-0 transform.  In no case does [load] throw: it
    completes normally. *)
Theorem load_absent_or_corrupt (st : Storage) (key : string)
    (defaultValue : jsval) (now : Z) :
  (st !! key = None ∨ st !! key = Some "" →
   loadFromStorage st key defaultValue now = Normal (defaultValue, st)) ∧
  (∀ item, st !! key = Some item → item ≠ "" → JSON_parse item = None →
     ((∀ cart, ¬ legacy_cart defaultValue cart) →
      returned (loadFromStorage st key defaultValue now) = Some defaultValue) ∧
     (∀ cart, legacy_cart defaultValue cart →
        returned (loadFromStorage st key defaultValue now)
        = Some (upgraded defaultValue cart))) ∧
  loadFromStorage st key defaultValue now ≠ Throw ∧
  (∃ r, loadFromStorage st key defaultValue now = Normal r).
Proof.
  split; [|split; [|split]].
  - unfold loadFromStorage, loadFromStorage_try. by intros [-> | ->].
  - intros item Hitem Hne Hparse. split.
    + intros Hno. rewrite (load_corrupt st key item) by done.
      by destruct (migration_0_other defaultValue Hno) as [-> | ->].
    + intros cart Hleg. rewrite (load_corrupt st key item) by done.
      by rewrite (migration_0_legacy defaultValue cart Hleg).
  - unfold loadFromStorage.
    by destruct (loadFromStorage_try st key defaultValue now).
  - unfold loadFromStorage.
    destruct (loadFromStorage_try st key defaultValue now); by eexists.
Qed.

(** C8 (amended).  For every key other than the key of the version marker:
    when [load] finds an envelope of version 0 whose data is an object with
    the legacy array under [cart], it returns the data with [cart] replaced
    by a cart record whose [items] is that array, and writes the envelope of
    this result under the same key at the current version, so that a second
    [load] returns the same data and writes nothing.  From any numeric
    version the transforms applied are those registered for the versions
    from it up to the one before the current, in ascending order, a version
    without a transform passing the data through. *)
Theorem load_migrates_legacy_cart (st : Storage) (key item : string)
    (env : jsval) (props : list (string * jsval)) (lines : list jsval)
    (defaultValue : jsval) (now now' : Z) :
  key ≠ VERSION_KEY →
  st !! key = Some item → item ≠ "" → JSON_parse item = Some env →
  JS.Get env "version" = Some (JNum 0) →
  JS.Get env "data" = Some (JObj props) →
  JS.lookup_prop "cart" props = Some (JArr lines) →
  let migrated := upgraded (JObj props) (JArr lines) in
  round_trips (StorageData STORAGE_VERSION migrated now) →
  let st' := saveToStorage st key migrated now in
  loadFromStorage st key defaultValue now = Normal (migrated, st') ∧
  JS.Get migrated "cart"
  = Some (JObj [("items", JArr lines);
                ("totalItems", JNum 0);
                ("totalPrice", JNum 0)]) ∧
  (∃ s, st' !! key = Some s ∧
        JSON_parse s = Some (StorageData STORAGE_VERSION migrated now)) ∧
  loadFromStorage st' key defaultValue now' = Normal (migrated, st') ∧
  (∀ data v,
     migrateData data (JNum v)
     = apply_chain (seqZ v (STORAGE_VERSION - v)) data).
Proof.
  intros Hkey Hitem Hne Hparse Hv Hd Hcart migrated Hrt st'.
  assert (Hleg : legacy_cart (JObj props) (JArr lines)).
  { repeat split.
    - unfold JS.Get. by rewrite Hcart.
    - by exists JUndefined. }
  destruct (load_after_save st key migrated defaultValue now now' Hkey Hrt)
    as [Hsaved Hsecond].
  repeat split; try done.
  - rewrite (load_older st key item env (JNum 0) (JObj props)) by done.
    by rewrite migrateData_0, (migration_0_legacy _ _ Hleg).
  - unfold migrated, upgraded, JS.Get. by rewrite lookup_set_prop.
  - intros data v. apply migrateData_chain.
Qed.

End StorageFacts.

Lemma save_then_load_witness :
  StorageUtil.loadFromStorage (H := reference_host)
    (StorageUtil.saveToStorage (H := reference_host) ∅ "monnn_cart" cart_json 100)
    "monnn_cart" JNull 200
  = Normal
      (cart_json,
       StorageUtil.saveToStorage (H := reference_host) ∅ "monnn_cart" cart_json 100).
Proof.
  refine (proj2 (save_then_load (H := reference_host) ∅ "monnn_cart" cart_json JNull
                   100 200 _ _)).
  - discriminate.
  - eexists. split; [reflexivity|]. split; [discriminate | by vm_compute].
Defined.

(** C6 as stated fails at the key of the version marker: [save] writes the
    envelope under it and then the marker over it, and [load] reads the
    marker, the number 1, whose [data] is [undefined]. *)
Lemma save_then_load_counterexample :
  StorageUtil.round_trips (H := reference_host)
    (StorageUtil.StorageData StorageUtil.STORAGE_VERSION (JNum 7) 100) ∧
  StorageUtil.returned
    (StorageUtil.loadFromStorage (H := reference_host)
       (StorageUtil.saveToStorage (H := reference_host) ∅ StorageUtil.VERSION_KEY
          (JNum 7) 100)
       StorageUtil.VERSION_KEY JNull 200)
  = Some JUndefined ∧
  JUndefined ≠ JNum 7.
Proof.
  split; [|split].
  - eexists. split; [reflexivity|]. split; [discriminate | by vm_compute].
  - by vm_compute.
  - discriminate.
Qed.

Lemma load_absent_or_corrupt_witness :
  StorageUtil.returned
    (StorageUtil.loadFromStorage (H := reference_host) corrupt_store "monnn_cart"
       cart_json 5)
  = Some cart_json.
Proof.
  refine (proj1 (proj1 (proj2
            (load_absent_or_corrupt (H := reference_host) corrupt_store "monnn_cart"
               cart_json 5)) "{oops" _ _ _) _).
  - by vm_compute.
  - discriminate.
  - by vm_compute.
  - intros cart (Hc & Ht & _). vm_compute in Hc.
    injection Hc as <-. discriminate Ht.
Defined.

(** C7 as stated fails for a default in the legacy shape: the text under
    the key does not deserialize, and [load] returns the default as upgraded
    by the version-0 transform, not the default. *)
Lemma load_corrupt_counterexample :
  JSON_parse (Host := reference_host) "{oops" = None ∧
  StorageUtil.returned
    (StorageUtil.loadFromStorage (H := reference_host) corrupt_store "monnn_cart"
       legacy_json 5)
  = Some (StorageUtil.upgraded legacy_json
            (default JUndefined (JS.lookup_prop "cart" (JS.own_props legacy_json)))) ∧
  StorageUtil.upgraded legacy_json
    (default JUndefined (JS.lookup_prop "cart" (JS.own_props legacy_json)))
  ≠ legacy_json.
Proof.
  split; [|split].
  - by vm_compute.
  - by vm_compute.
  - discriminate.
Qed.

Lemma load_migrates_legacy_cart_witness :
  let migrated :=
    StorageUtil.upgraded legacy_json
      (default JUndefined (JS.lookup_prop "cart" (JS.own_props legacy_json))) in
  let st' :=
    StorageUtil.saveToStorage (H := reference_host) legacy_store "monnn_cart" migrated 9 in
  StorageUtil.loadFromStorage (H := reference_host) legacy_store "monnn_cart" JNull 9
  = Normal (migrated, st') ∧
  StorageUtil.loadFromStorage (H := reference_host) st' "monnn_cart" JNull 11
  = Normal (migrated, st').
Proof.
  cbv zeta.
  pose proof
    (load_migrates_legacy_cart (H := reference_host) legacy_store "monnn_cart"
       legacy_envelope_text
       (JObj [("version", JNum 0); ("data", legacy_json); ("timestamp", JNum 5)])
       (JS.own_props legacy_json)
       [JObj
          [("product", JObj [("id", JStr "p1"); ("price", JNum 100)]);
           ("quantity", JNum 2);
           ("addedAt", JNum 10)]]
       JNull 9 11) as H.
  cbv zeta in H.
  destruct H as (H1 & _ & _ & H4 & _).
  - discriminate.
  - by vm_compute.
  - by vm_compute.
  - by vm_compute.
  - reflexivity.
  - reflexivity.
  - reflexivity.
  - eexists. split; [reflexivity|]. split; [by vm_compute | by vm_compute].
  - split; [exact H1 | exact H4].
Defined.

(** C8 as stated fails at the key of the version marker: the envelope of
    the upgraded data is written under it and the marker over it at once, so
    what the key holds afterwards is the marker, and a second [load] returns
    [undefined]. *)
Lemma load_migrates_counterexample :
  let st : Storage := {[ StorageUtil.VERSION_KEY := legacy_envelope_text ]} in
  let migrated :=
    StorageUtil.upgraded legacy_json
      (default JUndefined (JS.lookup_prop "cart" (JS.own_props legacy_json))) in
  let st' :=
    StorageUtil.saveToStorage (H := reference_host) st StorageUtil.VERSION_KEY
      migrated 9 in
  StorageUtil.loadFromStorage (H := reference_host) st StorageUtil.VERSION_KEY JNull 9
  = Normal (migrated, st') ∧
  st' !! StorageUtil.VERSION_KEY = Some "1" ∧
  StorageUtil.returned
    (StorageUtil.loadFromStorage (H := reference_host) st' StorageUtil.VERSION_KEY
       JNull 11)
  = Some JUndefined ∧
  migrated ≠ JUndefined.
Proof.
  cbv zeta. split; [|split; [|split]].
  - by vm_compute.
  - by vm_compute.
  - by vm_compute.
  - discriminate.
Qed.

(** ** Form validation *)

Section FormFacts.
Context {K V : Type}.
Import Form.

Lemma first_failure_all_accept (rs : list (ValidationRule V)) (value : V) :
  Forall (λ r, validate r value = true) rs → first_failure rs value = None.
Proof.
  induction 1 as [|r rs Hr _ IH]; cbn [first_failure]; [done|].
  by rewrite Hr.
Qed.

Lemma first_failure_first_rejecting (rs : list (ValidationRule V)) (value : V)
    (r : ValidationRule V) :
  first_rejecting rs value r → first_failure rs value = Some (message r).
Proof.
  intros (before & after & -> & Hbefore & Hr).
  induction Hbefore as [|r' before Hr' _ IH]; cbn [app first_failure].
  - by rewrite Hr.
  - by rewrite Hr'.
Qed.

Lemma first_failure_cases (rs : list (ValidationRule V)) (value : V) :
  (∃ r, first_rejecting rs value r ∧ first_failure rs value = Some (message r)) ∨
  (Forall (λ r, validate r value = true) rs ∧ first_failure rs value = None).
Proof.
  induction rs as [|r rs IH]; cbn [first_failure].
  - right. by split.
  - destruct (validate r value) eqn:Hr; cbn [negb].
    + destruct IH as [(r' & (before & after & -> & Hb & Hr') & Hres) | [Hall Hres]].
      * left. exists r'. split; [|done].
        exists (r :: before), after.
        split; [done | split; [by constructor | done]].
      * right. split; [by constructor | done].
    + left. exists r. split; [|done]. exists [], rs.
      split; [done | split; [constructor | done]].
Qed.

(** C9.  For a field whose configuration lists rules, [validateField]
    returns the message of the first rule, in declared order, that rejects
    the value, and returns no error when every rule accepts it; one of the
    two is always the case, so the result holds at most the one message of
    the first failure. *)
Theorem validateField_first_failure (fields : K → FieldConfig V) (fieldName : K)
    (value : V) (rs : list (ValidationRule V)) :
  rules (fields fieldName) = Some rs →
  (∀ r, first_rejecting rs value r →
        validateField fields fieldName value = Some (message r)) ∧
  (Forall (λ r, validate r value = true) rs →
   validateField fields fieldName value = None) ∧
  ((∃ r, first_rejecting rs value r ∧
         validateField fields fieldName value = Some (message r)) ∨
   (Forall (λ r, validate r value = true) rs ∧
    validateField fields fieldName value = None)).
Proof.
  intros Hrules. unfold validateField. rewrite Hrules.
  split; [|split].
  - apply first_failure_first_rejecting.
  - apply first_failure_all_accept.
  - apply first_failure_cases.
Qed.

End FormFacts.

Lemma validateField_first_failure_witness :
  Form.validateField (λ _ : unit, Form.code_field) () "a"
  = Some "Code must be at least 2 characters" ∧
  Form.validateField (λ _ : unit, Form.code_field) () "abcd" = None.
Proof.
  destruct (validateField_first_failure (λ _ : unit, Form.code_field) () "a" _
              eq_refl) as (H1 & _ & _).
  destruct (validateField_first_failure (λ _ : unit, Form.code_field) () "abcd" _
              eq_refl) as (_ & H2 & _).
  split.
  - apply (H1 (Form.minLength 2 (Some "Code must be at least 2 characters"))).
    exists [], [Form.minLength 4 None; Form.maxLength 8 None].
    split; [reflexivity | split; [constructor | reflexivity]].
  - apply H2. repeat constructor.
Defined.

(** ** Further properties *)

(** X1.  The scenario of the specification: from the empty cart, adding two
    of [p1] (price 100) gives one line and totals 2 and 200; adding one of
    [p2] (price 50) gives totals 3 and 250; setting the quantity of [p1] to 0
    leaves the line of [p2] alone, with totals 1 and 50. *)
Example specification_scenario :
  run initialCart scenario
  = [ {| items := [mkCartItem p1 2 10]; totalItems := 2; totalPrice := 200 |};
      {| items := [mkCartItem p1 2 10; mkCartItem p2 1 20];
         totalItems := 3; totalPrice := 250 |};
      {| items := [mkCartItem p2 1 20]; totalItems := 1; totalPrice := 50 |} ].
Proof. reflexivity. Qed.

(** X2.  [REMOVE_ITEM] keeps exactly the lines of the other products, in
    their order, leaves no line of the product, and recomputes the totals. *)
Theorem remove_item_behaviour (now : Z) (state : Cart) (productId : string) :
  let state' := cartReducer now state (REMOVE_ITEM productId) in
  items state' = filter (λ item, ¬ matches productId item) (items state) ∧
  absent productId (items state') ∧
  totals_hold state'.
Proof.
  cbv zeta. cbn [cartReducer].
  assert (Hitems :
    items (reduce_REMOVE_ITEM state productId)
    = filter (λ item, ¬ matches productId item) (items state)).
  { rewrite remove_items. induction (items state) as [|x l IH];
      cbn [List.filter]; [done|].
    rewrite filter_cons. unfold matches at 1.
    destruct (String.eqb_spec (id (product x)) productId); cbn [negb];
      case_decide; try done; by rewrite IH. }
  split; [done | split].
  - rewrite Hitems. intros item Hin Hm.
    by apply list_elem_of_filter in Hin as [Hn _].
  - unfold reduce_REMOVE_ITEM. apply calculateCartTotals_holds.
Qed.

Section MigrationFacts.
Context `{!Host}.
Import StorageUtil.

(** X3.  The chain only goes forward: from the current version or a later
    one [migrateData] applies no transform and returns the data as it is. *)
Theorem migrateData_no_downgrade (data : jsval) (v : Z) :
  STORAGE_VERSION ≤ v → migrateData data (JNum v) = Some data.
Proof.
  intros Hv. unfold migrateData, lessThan. cbn [ToNumber].
  by destruct (Z.ltb_spec v STORAGE_VERSION) as [?|_]; [lia|].
Qed.

End MigrationFacts.

Lemma migrateData_no_downgrade_witness :
  StorageUtil.migrateData (H := reference_host) legacy_json (JNum 1) = Some legacy_json.
Proof.
  refine (migrateData_no_downgrade (H := reference_host) legacy_json 1 _).
  unfold StorageUtil.STORAGE_VERSION. lia.
Defined.

(** ** The provider: queries, invariants of the lines, failed adds *)

Lemma add_line_absent (now : Z) (P : Product) (qty : Z) (l : list CartItem) :
  absent (id P) l → add_line now P qty l = l ++ [mkCartItem P qty now].
Proof.
  intros Habs. apply absent_Forall in Habs.
  induction Habs as [|x l Hx _ IH]; cbn [add_line app]; [done|].
  by rewrite Hx, IH.
Qed.

Lemma add_line_first (now : Z) (P : Product) (qty : Z)
    (before : list CartItem) (item : CartItem) (after : list CartItem) :
  absent (id P) before → matches (id P) item →
  add_line now P qty (before ++ item :: after)
  = before ++ with_quantity item (quantity item + qty) :: after.
Proof.
  intros Habs Hm. apply absent_Forall in Habs. apply String.eqb_eq in Hm.
  induction Habs as [|x l Hx _ IH]; cbn [add_line app].
  - by rewrite Hm.
  - by rewrite Hx, IH.
Qed.

Lemma remove_first_absent (productId : string) (l : list CartItem) :
  absent productId l → remove_first productId l = l.
Proof.
  intros Habs. apply absent_Forall in Habs.
  induction Habs as [|x l Hx _ IH]; cbn [remove_first]; [done|].
  by rewrite Hx, IH.
Qed.

Lemma remove_first_first (productId : string)
    (before : list CartItem) (item : CartItem) (after : list CartItem) :
  absent productId before → matches productId item →
  remove_first productId (before ++ item :: after) = before ++ after.
Proof.
  intros Habs Hm. apply absent_Forall in Habs. apply String.eqb_eq in Hm.
  induction Habs as [|x l Hx _ IH]; cbn [remove_first app].
  - by rewrite Hm.
  - by rewrite Hx, IH.
Qed.

(** A list of lines has no line of a product, or splits at the first. *)
Lemma absent_or_split (productId : string) (l : list CartItem) :
  absent productId l ∨
  ∃ before item after,
    l = before ++ item :: after ∧ absent productId before ∧
    matches productId item.
Proof.
  induction l as [|x l [IH | (before & item & after & -> & Hb & Hm)]].
  - left. intros item Hin. by apply elem_of_nil in Hin.
  - destruct (decide (matches productId x)) as [Hx|Hx].
    + right. exists [], x, l. repeat split; [|done].
      intros item Hin. by apply elem_of_nil in Hin.
    + left. intros item [->|Hin]%elem_of_cons; [done | by apply IH].
  - destruct (decide (matches productId x)) as [Hx|Hx].
    + right. exists [], x, (before ++ item :: after). repeat split; [|done].
      intros y Hin. by apply elem_of_nil in Hin.
    + right. exists (x :: before), item, after. repeat split; [|done].
      intros y [->|Hin]%elem_of_cons; [done | by apply Hb].
Qed.

(** The lines of the next state are [lines_after] of the lines of the
    state. *)
Lemma items_step (now : Z) (state : Cart) (a : CartAction) :
  items (cartReducer now state a) = lines_after now a (items state).
Proof.
  destruct a as [P q|pid|pid q| |c|P q|pid]; cbn [lines_after].
  - destruct (absent_or_split (id P) (items state))
      as [Habs | (before & item & after & Hs & Hb & Hm)].
    + by rewrite add_new, add_line_absent.
    + rewrite (add_existing _ _ _ _ before item after) by done.
      by rewrite Hs, add_line_first.
  - apply remove_items.
  - cbn [cartReducer]. destruct (q <=? 0) eqn:E.
    + apply remove_items.
    + cbn [calculateCartTotals with_items items]. unfold Array.map.
      apply (map_from_ignore_index
               (λ item, if String.eqb (id (product item)) pid
                        then with_quantity item q else item)).
  - reflexivity.
  - reflexivity.
  - change (cartReducer now state (OPTIMISTIC_ADD P q))
      with (cartReducer now state (ADD_ITEM P q)).
    destruct (absent_or_split (id P) (items state))
      as [Habs | (before & item & after & Hs & Hb & Hm)].
    + by rewrite add_new, add_line_absent.
    + rewrite (add_existing _ _ _ _ before item after) by done.
      by rewrite Hs, add_line_first.
  - destruct (absent_or_split pid (items state))
      as [Habs | (before & item & after & Hs & Hb & Hm)].
    + by rewrite rollback_absent, remove_first_absent.
    + rewrite (rollback_first _ _ _ before item after) by done.
      cbn [calculateCartTotals with_items items].
      by rewrite Hs, remove_first_first.
Qed.

Lemma cart_eq (c1 c2 : Cart) :
  totals_hold c1 → totals_hold c2 → items c1 = items c2 → c1 = c2.
Proof.
  destruct c1 as [l1 n1 m1], c2 as [l2 n2 m2]. unfold totals_hold.
  cbn [items totalItems totalPrice]. intros [-> ->] [-> ->] ->. reflexivity.
Qed.

Lemma or_zero (q : Z) : (if q =? 0 then 0 else q) = q.
Proof. by destruct (Z.eqb_spec q 0) as [->|_]. Qed.

Section Queries.
Variable productId : string.

Local Abbreviation is_line :=
  (λ item : CartItem, String.eqb (id (product item)) productId).

Lemma find_add_line_other (now : Z) (P : Product) (qty : Z) (l : list CartItem) :
  id P ≠ productId →
  List.find is_line (add_line now P qty l) = List.find is_line l.
Proof.
  intros Hne.
  assert (HP : String.eqb (id P) productId = false) by by apply String.eqb_neq.
  induction l as [|x l IH]; cbn [add_line List.find product].
  - by rewrite HP.
  - destruct (String.eqb_spec (id (product x)) (id P)) as [E|_];
      cbn [List.find with_quantity product].
    + by rewrite E, HP.
    + by rewrite IH.
Qed.

Lemma find_filter_other (pid : string) (l : list CartItem) :
  pid ≠ productId →
  List.find is_line
    (List.filter (λ item, negb (String.eqb (id (product item)) pid)) l)
  = List.find is_line l.
Proof.
  intros Hne.
  induction l as [|x l IH]; cbn [List.filter List.find]; [done|].
  destruct (String.eqb_spec (id (product x)) pid) as [E|_];
    cbn [negb List.find].
  - rewrite IH. destruct (String.eqb_spec (id (product x)) productId); congruence.
  - by rewrite IH.
Qed.

Lemma find_update_other (pid : string) (qty : Z) (l : list CartItem) :
  pid ≠ productId →
  List.find is_line
    ((λ item, if String.eqb (id (product item)) pid
              then with_quantity item qty else item) <$> l)
  = List.find is_line l.
Proof.
  intros Hne.
  induction l as [|x l IH]; [done|]. rewrite fmap_cons. cbn [List.find].
  destruct (String.eqb_spec (id (product x)) pid) as [E|_];
    cbn [with_quantity product].
  - rewrite IH. destruct (String.eqb_spec (id (product x)) productId); congruence.
  - by rewrite IH.
Qed.

Lemma find_remove_first_other (pid : string) (l : list CartItem) :
  pid ≠ productId →
  List.find is_line (remove_first pid l) = List.find is_line l.
Proof.
  intros Hne.
  induction l as [|x l IH]; cbn [remove_first List.find]; [done|].
  destruct (String.eqb_spec (id (product x)) pid) as [E|_]; cbn [List.find].
  - destruct (String.eqb_spec (id (product x)) productId); congruence.
  - by rewrite IH.
Qed.

Lemma find_lines_after_other (now : Z) (a : CartAction) (pid : string)
    (l : list CartItem) :
  about a = Some pid → pid ≠ productId →
  List.find is_line (lines_after now a l) = List.find is_line l.
Proof.
  intros Ha Hne.
  destruct a as [P q|pid'|pid' q| |c|P q|pid']; cbn [about] in Ha;
    try discriminate Ha; injection Ha as <-; cbn [lines_after].
  - by apply find_add_line_other.
  - by apply find_filter_other.
  - destruct (q <=? 0); [by apply find_filter_other | by apply find_update_other].
  - by apply find_add_line_other.
  - by apply find_remove_first_other.
Qed.

Lemma existsb_find (l : list CartItem) :
  existsb is_line l
  = match List.find is_line l with Some _ => true | None => false end.
Proof.
  induction l as [|x l IH]; cbn [existsb List.find]; [done|].
  by destruct (is_line x).
Qed.

Lemma find_add_line_same (now : Z) (P : Product) (qty : Z) (l : list CartItem) :
  id P = productId →
  List.find is_line (add_line now P qty l)
  = Some match List.find is_line l with
         | Some item => with_quantity item (quantity item + qty)
         | None => mkCartItem P qty now
         end.
Proof.
  intros <-.
  induction l as [|x l IH]; cbn [add_line List.find product].
  - by rewrite String.eqb_refl.
  - destruct (String.eqb (id (product x)) (id P)) eqn:E;
      cbn [List.find with_quantity product]; by rewrite E.
Qed.

Lemma find_filter_same (l : list CartItem) :
  List.find is_line
    (List.filter (λ item, negb (String.eqb (id (product item)) productId)) l)
  = None.
Proof.
  induction l as [|x l IH]; cbn [List.filter List.find]; [done|].
  destruct (String.eqb (id (product x)) productId) eqn:E;
    cbn [negb List.find]; [done|]. by rewrite E.
Qed.

Lemma find_update_same (qty : Z) (l : list CartItem) :
  List.find is_line
    ((λ item, if String.eqb (id (product item)) productId
              then with_quantity item qty else item) <$> l)
  = (λ item, with_quantity item qty) <$> List.find is_line l.
Proof.
  induction l as [|x l IH]; [done|].
  rewrite fmap_cons. cbn [List.find].
  destruct (String.eqb (id (product x)) productId) eqn:E;
    cbn [with_quantity product]; by rewrite E.
Qed.

End Queries.

(** X4.  Adding a quantity of a product raises the quantity the provider
    reports for it by exactly that quantity, from 0 when the product had no
    line, and the product is then in the cart. *)
Theorem add_raises_reported_quantity (now : Z) (state : Cart) (P : Product)
    (qty : Z) :
  let state' := cartReducer now state (OPTIMISTIC_ADD P qty) in
  getItemQuantity state' (id P) = getItemQuantity state (id P) + qty ∧
  isInCart state' (id P) = true.
Proof.
  cbv zeta. unfold getItemQuantity, isInCart.
  rewrite items_step, existsb_find. cbn [lines_after].
  rewrite find_add_line_same by done.
  split; [|done]. rewrite or_zero.
  destruct (List.find _ (items state)) as [item|]; cbn [quantity with_quantity].
  - by rewrite or_zero.
  - lia.
Qed.

(** X5.  An action about one product changes neither whether another
    product is in the cart nor the quantity reported for it. *)
Theorem queries_frame (now : Z) (state : Cart) (a : CartAction)
    (acted productId : string) :
  about a = Some acted → acted ≠ productId →
  isInCart (cartReducer now state a) productId = isInCart state productId ∧
  getItemQuantity (cartReducer now state a) productId
  = getItemQuantity state productId.
Proof.
  intros Ha Hne. unfold getItemQuantity, isInCart.
  rewrite items_step, !existsb_find.
  by rewrite (find_lines_after_other productId now a acted).
Qed.

Lemma queries_frame_witness :
  isInCart (cartReducer 5 stale_cart (REMOVE_ITEM "p2")) "p1"
  = isInCart stale_cart "p1" ∧
  getItemQuantity (cartReducer 5 stale_cart (REMOVE_ITEM "p2")) "p1"
  = getItemQuantity stale_cart "p1".
Proof.
  refine (queries_frame 5 stale_cart (REMOVE_ITEM "p2") "p2" "p1" _ _).
  - reflexivity.
  - discriminate.
Defined.

(** X6.  After [UPDATE_QUANTITY] the product is in the cart exactly when
    the quantity was positive and the product was in the cart before, and
    the quantity reported for it is then the new quantity, otherwise 0.
    After [REMOVE_ITEM] the product is not in the cart and 0 is reported. *)
Theorem queries_after_update (now : Z) (state : Cart) (productId : string)
    (qty : Z) :
  let state' := cartReducer now state (UPDATE_QUANTITY productId qty) in
  let removed := cartReducer now state (REMOVE_ITEM productId) in
  isInCart state' productId = (0 <? qty) && isInCart state productId ∧
  getItemQuantity state' productId
  = (if (0 <? qty) && isInCart state productId then qty else 0) ∧
  isInCart removed productId = false ∧
  getItemQuantity removed productId = 0.
Proof.
  cbv zeta. unfold getItemQuantity, isInCart.
  rewrite !items_step, !existsb_find. cbn [lines_after].
  rewrite find_filter_same.
  destruct (Z.leb_spec qty 0) as [Hq|Hq].
  - rewrite find_filter_same.
    destruct (Z.ltb_spec 0 qty) as [?|_]; [lia|]. by cbn [andb].
  - rewrite find_update_same.
    destruct (Z.ltb_spec 0 qty) as [_|?]; [|lia]. cbn [andb].
    destruct (List.find _ (items state)) as [item|]; cbn [fmap option_fmap option_map];
      [|done].
    cbn [with_quantity quantity]. by rewrite or_zero.
Qed.

Lemma line_ids_filter_elem (f : CartItem → bool) (l : list CartItem) (x : string) :
  x ∈ line_ids (List.filter f l) → x ∈ line_ids l.
Proof.
  unfold line_ids. induction l as [|y l IH]; cbn [List.filter]; [done|].
  rewrite fmap_cons. destruct (f y).
  - rewrite fmap_cons. intros [->|Hin]%elem_of_cons; [left | right; by apply IH].
  - intros Hin. right. by apply IH.
Qed.

Lemma line_ids_filter_NoDup (f : CartItem → bool) (l : list CartItem) :
  NoDup (line_ids l) → NoDup (line_ids (List.filter f l)).
Proof.
  unfold line_ids. induction l as [|y l IH]; cbn [List.filter]; [done|].
  rewrite fmap_cons. intros [Hy Hl]%NoDup_cons. destruct (f y); [|by apply IH].
  rewrite fmap_cons. apply NoDup_cons. split; [|by apply IH].
  intros Hin. apply Hy. by apply (line_ids_filter_elem f).
Qed.

Lemma remove_first_elem (productId : string) (l : list CartItem) (item : CartItem) :
  item ∈ remove_first productId l → item ∈ l.
Proof.
  induction l as [|y l IH]; cbn [remove_first]; [done|].
  destruct (String.eqb (id (product y)) productId).
  - intros Hin. by right.
  - intros [->|Hin]%elem_of_cons; [left | right; by apply IH].
Qed.

Lemma line_ids_remove_first_NoDup (productId : string) (l : list CartItem) :
  NoDup (line_ids l) → NoDup (line_ids (remove_first productId l)).
Proof.
  unfold line_ids. induction l as [|y l IH]; cbn [remove_first]; [done|].
  rewrite fmap_cons. intros [Hy Hl]%NoDup_cons.
  destruct (String.eqb (id (product y)) productId); [done|].
  rewrite fmap_cons. apply NoDup_cons. split; [|by apply IH].
  intros (item & Hid & Hin)%list_elem_of_fmap. apply Hy.
  apply list_elem_of_fmap. exists item. split; [done|].
  by apply (remove_first_elem productId).
Qed.

Lemma line_ids_update (productId : string) (qty : Z) (l : list CartItem) :
  line_ids
    ((λ item, if String.eqb (id (product item)) productId
              then with_quantity item qty else item) <$> l)
  = line_ids l.
Proof.
  unfold line_ids. rewrite <- list_fmap_compose. apply list_fmap_ext.
  intros _ item _. cbn. by destruct (String.eqb (id (product item)) productId).
Qed.

Lemma line_ids_add_line_NoDup (now : Z) (P : Product) (qty : Z)
    (l : list CartItem) :
  NoDup (line_ids l) → NoDup (line_ids (add_line now P qty l)).
Proof.
  intros Hl.
  destruct (absent_or_split (id P) l)
    as [Habs | (before & item & after & -> & Hb & Hm)].
  - rewrite add_line_absent by done. unfold line_ids. rewrite fmap_app.
    apply NoDup_app. split; [done|]. split; [|apply NoDup_singleton].
    intros x (item & -> & Hin)%list_elem_of_fmap Hx.
    apply list_elem_of_singleton in Hx. by apply (Habs item).
  - rewrite add_line_first by done. unfold line_ids in *.
    by rewrite fmap_app, fmap_cons in *.
Qed.

Lemma lines_after_NoDup (now : Z) (a : CartAction) (l : list CartItem) :
  is_LOAD_CART a = false →
  NoDup (line_ids l) → NoDup (line_ids (lines_after now a l)).
Proof.
  intros Ha Hl. destruct a as [P q|pid|pid q| |c|P q|pid];
    try discriminate Ha; cbn [lines_after].
  - by apply line_ids_add_line_NoDup.
  - by apply line_ids_filter_NoDup.
  - destruct (q <=? 0); [by apply line_ids_filter_NoDup|].
    by rewrite line_ids_update.
  - apply NoDup_nil_2.
  - by apply line_ids_add_line_NoDup.
  - by apply line_ids_remove_first_NoDup.
Qed.

(** An invariant of the lines that every action but [LOAD_CART] keeps
    holds after each action of a sequence that starts where it holds. *)
Lemma run_lines_invariant (Inv : list CartItem → Prop) (Ok : CartAction → Prop) :
  (∀ now a l, Ok a → Inv l → Inv (lines_after now a l)) →
  ∀ (ds : list dispatch) (state : Cart),
    Inv (items state) → Forall (λ d, Ok d.2) ds →
    Forall (λ c, Inv (items c)) (run state ds).
Proof.
  intros Hstep ds. induction ds as [|[now a] ds IH]; intros state Hs Hds;
    cbn [run]; [constructor|].
  apply Forall_cons in Hds as [Ha Hds]. cbn [snd] in Ha.
  assert (Inv (items (cartReducer now state a))).
  { rewrite items_step. by apply Hstep. }
  constructor; [done | by apply IH].
Qed.

(** X7.  From the empty cart, after each action of any sequence without
    [LOAD_CART] the cart has at most one line per product id. *)
Theorem one_line_per_product (ds : list dispatch) :
  Forall (λ d, is_LOAD_CART d.2 = false) ds →
  Forall (λ c, NoDup (line_ids (items c))) (run initialCart ds).
Proof.
  apply (run_lines_invariant (λ l, NoDup (line_ids l))
           (λ a, is_LOAD_CART a = false)).
  - intros now a l. apply lines_after_NoDup.
  - apply NoDup_nil_2.
Qed.

Lemma one_line_per_product_witness :
  Forall (λ c, NoDup (line_ids (items c))) (run initialCart scenario).
Proof.
  refine (one_line_per_product scenario _). repeat constructor.
Defined.

Lemma add_line_positive (now : Z) (P : Product) (qty : Z) (l : list CartItem) :
  1 ≤ qty →
  Forall (λ item, 1 ≤ quantity item) l →
  Forall (λ item, 1 ≤ quantity item) (add_line now P qty l).
Proof.
  intros Hq Hl. induction Hl as [|x l Hx Hl IH]; cbn [add_line].
  - by repeat constructor.
  - destruct (String.eqb (id (product x)) (id P)).
    + constructor; [cbn [with_quantity quantity]; lia | done].
    + by constructor.
Qed.

Lemma lines_after_positive (now : Z) (a : CartAction) (l : list CartItem) :
  is_LOAD_CART a = false ∧ adds_positive a →
  Forall (λ item, 1 ≤ quantity item) l →
  Forall (λ item, 1 ≤ quantity item) (lines_after now a l).
Proof.
  intros [Ha Hq] Hl.
  assert (Hfilter : ∀ f, Forall (λ item, 1 ≤ quantity item) (List.filter f l)).
  { intros f. apply Forall_forall. intros item Hin.
    apply list_elem_of_In, filter_In in Hin as [Hin _].
    apply list_elem_of_In in Hin. by eapply Forall_forall in Hl. }
  destruct a as [P q|pid|pid q| |c|P q|pid]; try discriminate Ha;
    cbn [lines_after adds_positive] in *.
  - by apply add_line_positive.
  - apply Hfilter.
  - destruct (Z.leb_spec q 0) as [?|Hpos]; [apply Hfilter|].
    apply Forall_fmap. eapply Forall_impl; [exact Hl|].
    intros item Hitem. cbn in Hitem |- *.
    destruct (String.eqb (id (product item)) pid); cbn; lia.
  - constructor.
  - by apply add_line_positive.
  - apply Forall_forall. intros item Hin%remove_first_elem.
    by eapply Forall_forall in Hl.
Qed.

(** X8.  From the empty cart, when every add is of a quantity of at least
    one, after each action of any sequence without [LOAD_CART] every line
    has a quantity of at least one, whatever quantities the updates ask
    for. *)
Theorem quantities_stay_positive (ds : list dispatch) :
  Forall (λ d, is_LOAD_CART d.2 = false ∧ adds_positive d.2) ds →
  Forall (λ c, Forall (λ item, 1 ≤ quantity item) (items c))
    (run initialCart ds).
Proof.
  apply (run_lines_invariant (λ l, Forall (λ item, 1 ≤ quantity item) l)
           (λ a, is_LOAD_CART a = false ∧ adds_positive a)).
  - intros now a l. apply lines_after_positive.
  - constructor.
Qed.

Lemma quantities_stay_positive_witness :
  Forall (λ c, Forall (λ item, 1 ≤ quantity item) (items c))
    (run initialCart scenario).
Proof.
  refine (quantities_stay_positive scenario _).
  repeat constructor; cbn; lia.
Defined.

Lemma remove_first_is_filter (productId : string) (l : list CartItem) :
  NoDup (line_ids l) →
  remove_first productId l
  = List.filter (λ item, negb (String.eqb (id (product item)) productId)) l.
Proof.
  unfold line_ids. induction l as [|x l IH]; cbn [remove_first List.filter]; [done|].
  rewrite fmap_cons. intros [Hx Hl]%NoDup_cons.
  destruct (String.eqb_spec (id (product x)) productId) as [E|_]; cbn [negb].
  - symmetry. apply filter_absent. intros item Hin Hm. apply Hx.
    apply list_elem_of_fmap. exists item. split; [|done].
    unfold matches in Hm. congruence.
  - by rewrite IH.
Qed.

(** X9.  On a cart with at most one line per product id, [ROLLBACK_ADD]
    leaves the same lines as [REMOVE_ITEM] of that product, and the same
    cart when the totals of the cart agreed with its lines. *)
Theorem rollback_is_remove (now : Z) (state : Cart) (productId : string) :
  NoDup (line_ids (items state)) →
  items (cartReducer now state (ROLLBACK_ADD productId))
  = items (cartReducer now state (REMOVE_ITEM productId)) ∧
  (totals_hold state →
   cartReducer now state (ROLLBACK_ADD productId)
   = cartReducer now state (REMOVE_ITEM productId)).
Proof.
  intros Hl.
  assert (Hitems :
    items (cartReducer now state (ROLLBACK_ADD productId))
    = items (cartReducer now state (REMOVE_ITEM productId))).
  { rewrite !items_step. cbn [lines_after]. by apply remove_first_is_filter. }
  split; [done|]. intros Hs.
  apply cart_eq; [by apply reducer_preserves | by apply reducer_restores | done].
Qed.

Lemma rollback_is_remove_witness :
  cartReducer 7 stale_cart (ROLLBACK_ADD "p1") ≠ stale_cart ∧
  items (cartReducer 7 stale_cart (ROLLBACK_ADD "p1"))
  = items (cartReducer 7 stale_cart (REMOVE_ITEM "p1")).
Proof.
  split; [discriminate|].
  refine (proj1 (rollback_is_remove 7 stale_cart "p1" _)).
  repeat constructor. intros Hin. by apply elem_of_nil in Hin.
Defined.

Lemma remove_first_add_line (now : Z) (P : Product) (qty : Z) (l : list CartItem) :
  absent (id P) l → remove_first (id P) (add_line now P qty l) = l.
Proof.
  intros Habs. rewrite add_line_absent by done.
  rewrite (remove_first_first (id P) l (mkCartItem P qty now) []) by done.
  apply app_nil_r.
Qed.

(** Case analysis on whether a line is of each of two different products. *)
Ltac line_cases x pid productId IH :=
  destruct (String.eqb (id (product x)) pid) eqn:?E,
           (String.eqb (id (product x)) productId) eqn:?E';
  cbn [negb List.filter remove_first add_line with_quantity product];
  rewrite ?E, ?E'; cbn [negb];
  first
    [ by (apply String.eqb_eq in E; apply String.eqb_eq in E'; congruence)
    | by rewrite ?IH ].

Lemma remove_first_filter (productId pid : string) (l : list CartItem) :
  pid ≠ productId →
  remove_first productId
    (List.filter (λ item, negb (String.eqb (id (product item)) pid)) l)
  = List.filter (λ item, negb (String.eqb (id (product item)) pid))
      (remove_first productId l).
Proof.
  intros Hne. induction l as [|x l IH]; cbn [List.filter remove_first]; [done|].
  line_cases x pid productId IH.
Qed.

Lemma remove_first_add_line_other (productId : string) (now : Z) (P : Product)
    (qty : Z) (l : list CartItem) :
  id P ≠ productId →
  remove_first productId (add_line now P qty l)
  = add_line now P qty (remove_first productId l).
Proof.
  intros Hne.
  assert (HP : String.eqb (id P) productId = false) by by apply String.eqb_neq.
  induction l as [|x l IH]; cbn [add_line remove_first product].
  - by rewrite HP.
  - line_cases x (id P) productId IH.
Qed.

Lemma remove_first_update (productId pid : string) (qty : Z) (l : list CartItem) :
  pid ≠ productId →
  remove_first productId
    ((λ item, if String.eqb (id (product item)) pid
              then with_quantity item qty else item) <$> l)
  = (λ item, if String.eqb (id (product item)) pid
             then with_quantity item qty else item) <$>
    remove_first productId l.
Proof.
  intros Hne. induction l as [|x l IH]; [done|].
  rewrite fmap_cons. cbn [remove_first].
  destruct (String.eqb (id (product x)) pid) eqn:E,
           (String.eqb (id (product x)) productId) eqn:E';
    cbn [with_quantity product]; rewrite ?E'; rewrite ?fmap_cons, ?E;
    first
      [ by (apply String.eqb_eq in E; apply String.eqb_eq in E'; congruence)
      | by rewrite ?IH ].
Qed.

Lemma remove_first_swap (productId pid : string) (l : list CartItem) :
  pid ≠ productId →
  remove_first productId (remove_first pid l)
  = remove_first pid (remove_first productId l).
Proof.
  intros Hne. induction l as [|x l IH]; cbn [remove_first]; [done|].
  line_cases x pid productId IH.
Qed.

Lemma remove_first_commutes (productId : string) (now : Z) (a : CartAction)
    (l : list CartItem) :
  spares productId a →
  remove_first productId (lines_after now a l)
  = lines_after now a (remove_first productId l).
Proof.
  intros Ha.
  destruct a as [P q|pid|pid q| |c|P q|pid]; cbn [spares about] in Ha;
    cbn [lines_after]; try done.
  - apply remove_first_add_line_other. congruence.
  - apply remove_first_filter. congruence.
  - destruct (q <=? 0);
      [apply remove_first_filter | apply remove_first_update]; congruence.
  - apply remove_first_add_line_other. congruence.
  - apply remove_first_swap. congruence.
Qed.

Lemma run_to_commutes (productId : string) (ds : list dispatch) (s1 s2 : Cart) :
  Forall (λ d, spares productId d.2) ds →
  remove_first productId (items s1) = items s2 →
  remove_first productId (items (run_to s1 ds)) = items (run_to s2 ds).
Proof.
  unfold run_to. intros Hds. revert s1 s2.
  induction Hds as [|[now a] ds Ha _ IH]; intros s1 s2 H12; cbn [fold_left];
    [done|].
  apply IH. cbn [fst snd] in *.
  by rewrite !items_step, remove_first_commutes, H12.
Qed.

Lemma spares_not_load (productId : string) (a : CartAction) :
  spares productId a → is_LOAD_CART a = false.
Proof. by destruct a. Qed.

Lemma run_to_preserves (productId : string) (ds : list dispatch) (state : Cart) :
  Forall (λ d, spares productId d.2) ds →
  totals_hold state → totals_hold (run_to state ds).
Proof.
  unfold run_to. intros Hds. revert state.
  induction Hds as [|[now a] ds Ha _ IH]; intros state Hs; cbn [fold_left];
    [done|].
  apply IH. apply reducer_preserves; [|done]. by eapply spares_not_load.
Qed.

(** X10.  A rejected [addToCart] of a product the cart had no line for
    leaves no trace: whatever actions about other products (or clearing the
    cart) were dispatched while the confirmation was pending, the lines after
    the rollback are those the pending actions alone would have left, and so
    is the whole cart when the totals of the starting cart agreed with its
    lines. *)
Theorem rejected_add_leaves_no_trace (now now' : Z) (P : Product) (qty : Z)
    (pending : list dispatch) (state : Cart) :
  absent (id P) (items state) →
  Forall (λ d, spares (id P) d.2) pending →
  items (addToCart now P qty pending false now' state)
  = items (run_to state pending) ∧
  (totals_hold state →
   addToCart now P qty pending false now' state = run_to state pending).
Proof.
  intros Habs Hpending. unfold addToCart.
  set (optimistic := cartReducer now state (OPTIMISTIC_ADD P qty)).
  assert (Hitems :
    items (cartReducer now' (run_to optimistic pending) (ROLLBACK_ADD (id P)))
    = items (run_to state pending)).
  { rewrite items_step. cbn [lines_after].
    apply run_to_commutes; [done|]. unfold optimistic.
    rewrite items_step. cbn [lines_after]. by apply remove_first_add_line. }
  split; [done|]. intros Hs.
  apply cart_eq; [| by eapply run_to_preserves | done].
  apply reducer_preserves; [done|].
  eapply run_to_preserves; [done|]. by apply reducer_restores.
Qed.

Lemma rejected_add_leaves_no_trace_witness :
  addToCart 1 p2 3 [(2, OPTIMISTIC_ADD p1 1); (3, UPDATE_QUANTITY "p1" 5)]
    false 4 initialCart
  = run_to initialCart [(2, OPTIMISTIC_ADD p1 1); (3, UPDATE_QUANTITY "p1" 5)].
Proof.
  refine (proj2 (rejected_add_leaves_no_trace 1 4 p2 3
                   [(2, OPTIMISTIC_ADD p1 1); (3, UPDATE_QUANTITY "p1" 5)]
                   initialCart _ _) _).
  - intros item Hin. by apply elem_of_nil in Hin.
  - repeat constructor; discriminate.
  - by split.
Defined.

(** ** Removing and clearing stored values; what a call may write *)

Lemma fold_delete_lookup (keys : list string) (st : Storage) (k : string) :
  fold_left (λ s key, delete key s) keys st !! k
  = if decide (k ∈ keys) then None else st !! k.
Proof.
  revert st. induction keys as [|key keys IH]; intros st; cbn [fold_left].
  - by rewrite decide_False by apply not_elem_of_nil.
  - rewrite IH. destruct (decide (k ∈ keys)) as [Hin|Hnin].
    + by rewrite decide_True by by right.
    + destruct (decide (k = key)) as [->|Hne].
      * rewrite decide_True by by left. apply lookup_delete_eq.
      * rewrite decide_False by (intros [?|?]%elem_of_cons; done).
        by apply lookup_delete_ne.
Qed.

Lemma clearStorage_lookup (st : Storage) (k : string) :
  StorageUtil.clearStorage st !! k
  = if String.prefix "monnn_" k then None else st !! k.
Proof.
  unfold StorageUtil.clearStorage. rewrite fold_delete_lookup.
  destruct (String.prefix "monnn_" k) eqn:Hp.
  - case_decide as Hin; [done|].
    destruct (st !! k) as [x|] eqn:Hk; [|done].
    exfalso. apply Hin. apply list_elem_of_In, filter_In. split; [|done].
    apply list_elem_of_In, list_elem_of_fmap. exists (k, x).
    split; [done|]. by apply elem_of_map_to_list.
  - case_decide as Hin; [|done].
    apply list_elem_of_In, filter_In in Hin as [_ Hp']. congruence.
Qed.

Section StorageEffects.
Context `{!Host}.
Import StorageUtil.

(** X11.  [clearStorage] removes every key that starts with [monnn_], the
    version marker among them, and leaves every other key as it was; a
    [load] of a removed key then returns the default and writes nothing. *)
Theorem clearStorage_behaviour (st : Storage) (key : string)
    (defaultValue : jsval) (now : Z) :
  clearStorage st !! VERSION_KEY = None ∧
  (String.prefix "monnn_" key = true →
   clearStorage st !! key = None ∧
   loadFromStorage (clearStorage st) key defaultValue now
   = Normal (defaultValue, clearStorage st)) ∧
  (String.prefix "monnn_" key = false → clearStorage st !! key = st !! key).
Proof.
  split; [by rewrite clearStorage_lookup|]. split; intros Hp.
  - assert (Hnone : clearStorage st !! key = None)
      by by rewrite clearStorage_lookup, Hp.
    split; [done|].
    unfold loadFromStorage, loadFromStorage_try. by rewrite Hnone.
  - by rewrite clearStorage_lookup, Hp.
Qed.

(** X12.  After [removeFromStorage] of a key, whatever was saved under it,
    a [load] of the key returns the default and writes nothing, and every
    other key holds what it held. *)
Theorem removeFromStorage_behaviour (st : Storage) (key other : string)
    (defaultValue : jsval) (now : Z) :
  loadFromStorage (removeFromStorage st key) key defaultValue now
  = Normal (defaultValue, removeFromStorage st key) ∧
  (other ≠ key → removeFromStorage st key !! other = st !! other).
Proof.
  unfold removeFromStorage. split.
  - unfold loadFromStorage, loadFromStorage_try. by rewrite lookup_delete_eq.
  - intros Hne. by apply lookup_delete_ne.
Qed.



End StorageEffects.

(** ** The form hook *)

Section UseFormFacts.
Context {K V : Type} `{EqDecision K}.
Variable config : UseForm.FormConfig K V.
Import Form UseForm.

Lemma get_set {A : Type} (k k' : K) (x : A) (o : list (K * A)) :
  get k' (set k x o) = if decide (k = k') then Some x else get k' o.
Proof.
  induction o as [|[k0 y] o IH]; cbn [set get].
  - by repeat case_decide.
  - destruct (decide (k0 = k)) as [->|Hne]; cbn [get].
    + by repeat case_decide.
    + rewrite IH. repeat case_decide; congruence.
Qed.

Lemma get_None {A : Type} (k : K) (o : list (K * A)) :
  k ∉ o.*1 → get k o = None.
Proof.
  induction o as [|[k0 y] o IH]; cbn [get]; [done|].
  rewrite fmap_cons. cbn [fst]. intros Hk%not_elem_of_cons.
  destruct Hk as [Hne Hk]. rewrite decide_False by congruence. by apply IH.
Qed.

(** What [validateForm] leaves under a key for a value of the field. *)
Local Abbreviation report k v below :=
  (match validateField (fields config) k v with
   | Some m =>
       if truthy (Some m) then Some (Some {| message := m; touched := true |})
       else below
   | None => below
   end).

Local Abbreviation flagged :=
  (λ entry : K * option FieldError,
     match entry.2 with
     | Some e => truthy (Some (message e))
     | None => false
     end).

Lemma flagged_set (k : K) (e : FieldError) (errs : list (K * option FieldError)) :
  truthy (Some (message e)) = true →
  forallb flagged errs = true →
  forallb flagged (set k (Some e) errs) = true ∧ set k (Some e) errs ≠ [].
Proof.
  intros He. induction errs as [|[k0 y] errs IH]; cbn [set forallb].
  - intros _. split; [|discriminate]. cbn [forallb snd]. by rewrite He.
  - intros [Hy Herrs]%andb_true_iff.
    destruct (decide (k0 = k)); (split; [|discriminate]); cbn [forallb snd].
    + by rewrite He, Herrs.
    + destruct (IH Herrs) as [IH1 _]. rewrite IH1. cbn [snd] in Hy.
      by rewrite Hy.
Qed.

Local Abbreviation all_pass entries :=
  (forallb (λ entry : K * V, passes config entry.1 entry.2) entries).

Lemma validate_entry_cases (errs : list (K * option FieldError)) (ok : bool)
    (k : K) (v : V) :
  (passes config k v = true ∧
   report k v (None : option (option FieldError)) = None ∧
   validate_entry config (errs, ok) (k, v) = (errs, ok)) ∨
  (∃ m, passes config k v = false ∧ truthy (Some m) = true ∧
        validateField (fields config) k v = Some m ∧
        validate_entry config (errs, ok) (k, v)
        = (set k (Some {| message := m; touched := true |}) errs, false)).
Proof.
  unfold validate_entry, passes. cbn [fst snd].
  destruct (validateField (fields config) k v) as [m|]; [|by left].
  destruct (truthy (Some m)) eqn:Ht; [right; by exists m | by left].
Qed.

Lemma fold_validate_ok (entries : list (K * V))
    (errs : list (K * option FieldError)) (ok : bool) :
  (fold_left (validate_entry config) entries (errs, ok)).2
  = ok && all_pass entries.
Proof.
  revert errs ok. induction entries as [|[k v] entries IH]; intros errs ok;
    cbn [fold_left forallb fst snd].
  - by rewrite andb_true_r.
  - destruct (validate_entry_cases errs ok k v)
      as [(Hp & _ & ->) | (m & Hp & _ & _ & ->)]; rewrite IH, Hp; cbn [andb].
    + done.
    + by rewrite andb_false_r.
Qed.

Lemma fold_validate_all_pass (entries : list (K * V))
    (errs : list (K * option FieldError)) (ok : bool) :
  all_pass entries = true →
  fold_left (validate_entry config) entries (errs, ok) = (errs, ok).
Proof.
  induction entries as [|[k v] entries IH]; cbn [fold_left forallb fst snd];
    [done|].
  intros [Hp Hall]%andb_true_iff.
  destruct (validate_entry_cases errs ok k v)
    as [(_ & _ & ->) | (m & Hp' & _)]; [by apply IH | congruence].
Qed.

Lemma fold_validate_get (entries : list (K * V))
    (errs : list (K * option FieldError)) (ok : bool) (k : K) :
  NoDup entries.*1 →
  get k (fold_left (validate_entry config) entries (errs, ok)).1
  = match get k entries with
    | Some v => report k v (get k errs)
    | None => get k errs
    end.
Proof.
  revert errs ok. induction entries as [|[k0 v0] entries IH]; intros errs ok Hnd;
    cbn [fold_left get]; [done|].
  rewrite fmap_cons in Hnd. apply NoDup_cons in Hnd as [Hk0 Hnd].
  cbn [fst] in Hk0.
  destruct (validate_entry_cases errs ok k0 v0)
    as [(Hp & Hr & ->) | (m & Hp & Ht & Hv & ->)]; rewrite IH by done.
  - destruct (decide (k0 = k)) as [<-|Hne]; [|done].
    rewrite (get_None k0 entries) by done.
    destruct (validateField (fields config) k0 v0) as [m|]; [|done].
    by destruct (truthy (Some m)).
  - rewrite get_set. destruct (decide (k0 = k)) as [<-|Hne]; [|done].
    rewrite (get_None k0 entries) by done. by rewrite Hv, Ht.
Qed.

Lemma fold_validate_flagged (entries : list (K * V))
    (errs : list (K * option FieldError)) (ok : bool) :
  forallb flagged errs = true →
  forallb flagged (fold_left (validate_entry config) entries (errs, ok)).1
  = true ∧
  (errs ≠ [] ∨ all_pass entries = false →
   (fold_left (validate_entry config) entries (errs, ok)).1 ≠ []).
Proof.
  revert errs ok. induction entries as [|[k v] entries IH]; intros errs ok Hfl;
    cbn [fold_left forallb fst snd].
  - split; [done|]. by intros [?|?].
  - destruct (validate_entry_cases errs ok k v)
      as [(Hp & _ & ->) | (m & Hp & Ht & _ & ->)].
    + destruct (IH errs ok Hfl) as [IH1 IH2]. split; [done|].
      rewrite Hp. cbn [andb]. exact IH2.
    + destruct (flagged_set k {| message := m; touched := true |} errs Ht Hfl)
        as [Hfl' Hne].
      destruct (IH _ false Hfl') as [IH1 IH2]. split; [done|].
      intros _. apply IH2. by left.
Qed.

Lemma hasErrors_flagged (errs : list (K * option FieldError)) :
  forallb flagged errs = true →
  existsb flagged errs = match errs with [] => false | _ => true end.
Proof.
  destruct errs as [|e errs]; [done|]. cbn [forallb existsb].
  intros [-> _]%andb_true_iff. done.
Qed.

Lemma passes_first_rejecting (k : K) (v : V) :
  passes config k v = true ↔
  match rules (fields config k) with
  | None => True
  | Some rs =>
      Forall (λ r, validate r v = true) rs ∨
      ∃ r, first_rejecting rs v r ∧ Form.message r = ""
  end.
Proof.
  unfold passes, validateField.
  destruct (rules (fields config k)) as [rs|]; [|done].
  destruct (first_failure_cases rs v) as [(r & Hr & Hff) | [Hall Hff]].
  - rewrite Hff. cbn [truthy]. rewrite negb_involutive. split.
    + intros E%String.eqb_eq. right. by exists r.
    + intros [Hall | (r' & Hr' & Hm)].
      * by rewrite (first_failure_all_accept rs v Hall) in Hff.
      * rewrite (first_failure_first_rejecting rs v r' Hr') in Hff.
        injection Hff as Heq. rewrite <- Heq, Hm. done.
  - rewrite Hff. cbn [truthy negb]. split; [by left | done].
Qed.

(** X14.  [validateForm] answers whether every field passes, and replaces
    the errors by an entry, marked touched, for exactly the fields that do
    not pass, with the message [validateField] reports for them; earlier
    entries are dropped, fields that pass get none, and the values stay.  A
    field passes when it has no rules, when every rule accepts its value,
    and when the first rule that rejects its value has the empty message,
    whatever the rules after that one do.  [hasErrors] then is the negation
    of the answer. *)
Theorem validateForm_reports (st : FormState K V) :
  NoDup (values st).*1 →
  let result := validateForm config st in
  result.1 = forallb (λ entry, passes config entry.1 entry.2) (values st) ∧
  (∀ k, get k (errors result.2)
        = match get k (values st) with
          | Some v =>
              match validateField (fields config) k v with
              | Some m =>
                  if truthy (Some m)
                  then Some (Some {| message := m; touched := true |})
                  else None
              | None => None
              end
          | None => None
          end) ∧
  hasErrors result.2 = negb result.1 ∧
  values result.2 = values st ∧
  (∀ k v,
     passes config k v = true ↔
     match rules (fields config k) with
     | None => True
     | Some rs =>
         Forall (λ r, validate r v = true) rs ∨
         ∃ r, first_rejecting rs v r ∧ Form.message r = ""
     end).
Proof.
  intros Hnd. cbv zeta. unfold validateForm, hasErrors.
  pose proof (fold_validate_ok (values st) [] true) as Hok.
  pose proof (λ k, fold_validate_get (values st) [] true k Hnd) as Hget.
  pose proof (fold_validate_flagged (values st) [] true eq_refl) as [Hfl Hne].
  pose proof (fold_validate_all_pass (values st) [] true) as Hall.
  destruct (fold_left (validate_entry config) (values st) ([], true))
    as [newErrors isValid].
  cbn [fst snd errors values] in *. subst isValid.
  split; [done|]. split; [|split; [|split; [done|]]].
  - intros k. rewrite Hget. by destruct (get k (values st)).
  - rewrite (hasErrors_flagged newErrors Hfl).
    destruct (forallb _ (values st)) eqn:Hpass; cbn [negb].
    + specialize (Hall eq_refl). by injection Hall as ->.
    + destruct newErrors; [|done]. exfalso. apply Hne; [by right | done].
  - apply passes_first_rejecting.
Qed.

(** X15.  [handleSubmit] calls [config.onSubmit] exactly when no
    submission is in flight and every field passes, and then with the
    current values; while a submission is in flight it changes nothing; and
    it raises [isSubmitting] exactly when it makes the call. *)
Theorem onSubmit_gets_valid_values (st : FormState K V) :
  let begun := handleSubmit_begin config st in
  begun.2
  = (if negb (isSubmitting st)
        && forallb (λ entry, passes config entry.1 entry.2) (values st)
     then Some (values st) else None) ∧
  isSubmitting begun.1
  = isSubmitting st
    || forallb (λ entry, passes config entry.1 entry.2) (values st) ∧
  (isSubmitting st = true → begun.1 = st).
Proof.
  cbv zeta. unfold handleSubmit_begin, validateForm.
  destruct (isSubmitting st) eqn:Hsub; cbn [negb andb orb fst snd values].
  - by rewrite Hsub.
  - pose proof (fold_validate_ok (values st) [] true) as Hok.
    destruct (fold_left (validate_entry config) (values st) ([], true))
      as [newErrors isValid].
    cbn [fst snd andb] in Hok. subst isValid.
    destruct (forallb _ (values st)); cbn [negb fst snd isSubmitting];
      by rewrite ?Hsub.
Qed.

(** X16.  A submission that was begun, of values that all pass, ends
    either way with [isSubmitting] lowered: when [config.onSubmit]
    resolves, in the initial state of the form; when it rejects, with the
    values kept, no field error, and the rejection's message as the submit
    error. *)
Theorem submission_cycle (st : FormState K V) (error : option string) :
  isSubmitting st = false →
  forallb (λ entry, passes config entry.1 entry.2) (values st) = true →
  let begun := (handleSubmit_begin config st).1 in
  handleSubmit_settle config Resolved begun = initialState config ∧
  handleSubmit_settle config (Rejected error) begun
  = {| values := values st; errors := []; isSubmitting := false;
       submitError :=
         Some match error with
              | Some m => m
              | None => "Submission failed"
              end |}.
Proof.
  intros Hsub Hpass. cbv zeta. unfold handleSubmit_begin, validateForm.
  rewrite Hsub. cbn [values].
  rewrite (fold_validate_all_pass (values st) [] true Hpass).
  cbn [negb fst snd]. done.
Qed.

(** X17.  [handleChange] validates a field only while its entry is marked
    touched, and a value that passes replaces the entry by [undefined], mark
    included: after such a change the field is no longer touched, and a
    later change to a value that fails leaves the errors as they are. *)
Theorem change_drops_touched_mark (fieldName : K) (good bad : V)
    (st : FormState K V) :
  touched_at fieldName (errors st) = true →
  passes config fieldName good = true →
  let changed := handleChange config fieldName good st in
  get fieldName (errors changed) = Some None ∧
  touched_at fieldName (errors changed) = false ∧
  errors (handleChange config fieldName bad changed) = errors changed ∧
  get fieldName (values (handleChange config fieldName bad changed)) = Some bad.
Proof.
  intros Ht Hp. cbv zeta. unfold passes in Hp.
  assert (Hget :
    get fieldName (errors (handleChange config fieldName good st)) = Some None).
  { unfold handleChange. cbn [errors]. rewrite Ht, get_set.
    rewrite decide_True by done.
    destruct (validateField (fields config) fieldName good) as [m|]; [|done].
    by destruct (truthy (Some m)). }
  assert (Hnt :
    touched_at fieldName (errors (handleChange config fieldName good st)) = false)
    by (unfold touched_at; by rewrite Hget).
  split; [done|]. split; [done|]. split.
  - unfold handleChange at 1. cbn [errors]. by rewrite Hnt.
  - unfold handleChange at 1. cbn [values]. rewrite get_set.
    by rewrite decide_True.
Qed.

(** X18.  [handleBlur] marks the field touched whether or not it passes,
    keeps the values, and counts towards [hasErrors] only with a message
    that is not empty; the next [handleChange] of the field then leaves an
    entry for a value that does not pass and [undefined] for one that
    does. *)
Theorem blur_then_change_revalidates (fieldName : K) (value : V)
    (st blurred : FormState K V) :
  handleBlur config fieldName st = Some blurred →
  touched_at fieldName (errors blurred) = true ∧
  values blurred = values st ∧
  get fieldName (errors (handleChange config fieldName value blurred))
  = Some match validateField (fields config) fieldName value with
         | Some m =>
             if truthy (Some m) then Some {| message := m; touched := true |}
             else None
         | None => None
         end.
Proof.
  unfold handleBlur. destruct (get fieldName (values st)) as [v|];
    cbn [mbind option_bind]; [|discriminate].
  intros [= <-]. cbn [errors values].
  assert (Ht : touched_at fieldName
                 (set fieldName
                    (Some {| message :=
                               match validateField (fields config) fieldName v with
                               | Some m =>
                                   if truthy (validateField (fields config) fieldName v)
                                   then m else ""
                               | None => ""
                               end;
                             touched := true |})
                    (errors st)) = true).
  { unfold touched_at. rewrite get_set. by rewrite decide_True. }
  split; [done|]. split; [done|].
  unfold handleChange. cbn [errors]. rewrite Ht, get_set.
  rewrite decide_True by done.
  by destruct (validateField (fields config) fieldName value).
Qed.

End UseFormFacts.

Lemma validateForm_reports_witness :
  (UseForm.validateForm code_form short_code).1 = false ∧
  UseForm.hasErrors (UseForm.validateForm code_form short_code).2 = true.
Proof.
  destruct (validateForm_reports code_form short_code) as (H1 & _ & H3 & _).
  - repeat constructor. intros Hin. by apply elem_of_nil in Hin.
  - split; [exact H1 | exact H3].
Defined.

Lemma submission_cycle_witness :
  UseForm.handleSubmit_settle code_form UseForm.Resolved (UseForm.handleSubmit_begin code_form good_code).1
  = UseForm.initialState code_form.
Proof.
  refine (proj1 (submission_cycle code_form good_code None _ _)); reflexivity.
Defined.

Lemma change_drops_touched_mark_witness :
  let touched_short :=
    {| UseForm.values := [("code", "a")];
       UseForm.errors :=
         [("code",
           Some {| UseForm.message := "Code must be at least 2 characters";
                   UseForm.touched := true |})];
       UseForm.isSubmitting := false; UseForm.submitError := None |} in
  UseForm.errors
    (UseForm.handleChange code_form "code" "a"
       (UseForm.handleChange code_form "code" "abcd" touched_short))
  = [("code", None)].
Proof.
  cbv zeta.
  refine (eq_trans
            (proj1 (proj2 (proj2
               (change_drops_touched_mark code_form "code" "abcd" "a" _ _ _))))
            _);
    reflexivity.
Defined.

Lemma blur_then_change_revalidates_witness :
  UseForm.get "code"
    (UseForm.errors
       (UseForm.handleChange code_form "code" "a"
          (default good_code (UseForm.handleBlur code_form "code" good_code))))
  = Some (Some {| UseForm.message := "Code must be at least 2 characters";
                  UseForm.touched := true |}).
Proof.
  refine (proj2 (proj2
            (blur_then_change_revalidates code_form "code" "a" good_code _ _))).
  reflexivity.
Defined.

(** ** Functional helpers *)

(** X19.  [pipe] is [compose] of the functions in reverse order, and both
    split over a concatenation of their lists: [compose] runs the second
    list first, [pipe] the first. *)
Theorem pipe_is_reversed_compose {T : Type} (fs gs : list (T → T)) (x : T) :
  Helpers.pipe fs x = Helpers.compose (rev fs) x ∧
  Helpers.compose (fs ++ gs) x = Helpers.compose fs (Helpers.compose gs x) ∧
  Helpers.pipe (fs ++ gs) x = Helpers.pipe gs (Helpers.pipe fs x).
Proof.
  unfold Helpers.pipe, Helpers.compose. split; [|split].
  - by rewrite fold_left_rev_right.
  - apply fold_right_app.
  - apply fold_left_app.
Qed.

(** Induction on a value with the hypothesis for every element of an array
    and every property value of an object. *)
Fixpoint jsval_nested_ind (P : jsval → Prop)
    (Hundefined : P JUndefined) (Hnull : P JNull)
    (Hbool : ∀ b, P (JBool b)) (Hnum : ∀ n, P (JNum n))
    (Hstr : ∀ s, P (JStr s))
    (Harr : ∀ elems, Forall P elems → P (JArr elems))
    (Hobj : ∀ props, Forall (λ kx, P kx.2) props → P (JObj props))
    (v : jsval) : P v :=
  match v with
  | JUndefined => Hundefined
  | JNull => Hnull
  | JBool b => Hbool b
  | JNum n => Hnum n
  | JStr s => Hstr s
  | JArr elems =>
      Harr elems
        ((fix go (l : list jsval) : Forall P l :=
            match l with
            | [] => @List.Forall_nil jsval P
            | x :: l' =>
                @List.Forall_cons jsval P x l'
                  (jsval_nested_ind P Hundefined Hnull Hbool Hnum Hstr Harr
                     Hobj x)
                  (go l')
            end) elems)
  | JObj props =>
      Hobj props
        ((fix go (l : list (string * jsval)) : Forall (λ kx, P kx.2) l :=
            match l with
            | [] => @List.Forall_nil (string * jsval) (λ kx, P kx.2)
            | kx :: l' =>
                @List.Forall_cons (string * jsval) (λ kx, P kx.2) kx l'
                  (jsval_nested_ind P Hundefined Hnull Hbool Hnum Hstr Harr
                     Hobj kx.2)
                  (go l')
            end) props)
  end.

Lemma set_prop_fresh (k : string) (x : jsval) (props : list (string * jsval)) :
  k ∉ props.*1 → JS.set_prop k x props = props ++ [(k, x)].
Proof.
  induction props as [|[k' y] props IH]; cbn [JS.set_prop app]; [done|].
  rewrite fmap_cons. cbn [fst]. intros [Hne Hk]%not_elem_of_cons.
  assert (E : String.eqb k' k = false) by (apply String.eqb_neq; congruence).
  by rewrite E, IH.
Qed.

Lemma lookup_prop_None (k : string) (props : list (string * jsval)) :
  forallb (λ kx, negb (String.eqb kx.1 k)) props = true →
  JS.lookup_prop k props = None.
Proof.
  induction props as [|[k' y] props IH]; cbn [JS.lookup_prop forallb fst];
    [done|].
  intros [Hk Hall]%andb_true_iff. apply negb_true_iff in Hk.
  rewrite Hk. by apply IH.
Qed.

Lemma clone_props (done props : list (string * jsval)) :
  NoDup (done ++ props).*1 →
  Forall (λ kx, String.eqb kx.1 "__proto__" = false ∧
                Helpers.deepClone kx.2 = Some kx.2) props →
  fold_left
    (λ clonedObj kx,
       match clonedObj, Helpers.deepClone kx.2 with
       | Some o, Some c => Some (Helpers.assign kx.1 c o)
       | _, _ => None
       end)
    props (Some done)
  = Some (done ++ props).
Proof.
  intros Hnd Hall. revert done Hnd.
  induction Hall as [|[k x] props [Hk Hx] _ IH]; intros done Hnd;
    cbn [fold_left fst snd].
  - by rewrite app_nil_r.
  - cbn [fst snd] in Hk, Hx. rewrite Hx. unfold Helpers.assign. rewrite Hk.
    assert (Hfresh : k ∉ done.*1).
    { rewrite fmap_app, fmap_cons in Hnd. cbn [fst] in Hnd.
      apply NoDup_app in Hnd as (_ & Hdis & _).
      intros Hin. apply (Hdis k Hin). by left. }
    rewrite set_prop_fresh by done.
    rewrite IH; [by rewrite <- app_assoc | by rewrite <- app_assoc].
Qed.

(** X20.  [deepClone] returns a value equal to its argument for every
    value in which each object has its keys once and has no key named
    [hasOwnProperty] or [__proto__]; on an object that has a key named
    [hasOwnProperty] it throws. *)
Theorem deepClone_copies (v : jsval) :
  (Helpers.plain v = true → Helpers.deepClone v = Some v) ∧
  (∀ props x,
     v = JObj props → JS.lookup_prop "hasOwnProperty" props = Some x →
     Helpers.deepClone v = None).
Proof.
  split.
  - induction v as [| | | | |elems IH|props IH] using jsval_nested_ind;
      try done.
    + cbn [Helpers.plain Helpers.deepClone]. intros Hplain.
      assert (Hfold :
        fold_right
          (λ item rest, match Helpers.deepClone item, rest with
                        | Some c, Some cs => Some (c :: cs)
                        | _, _ => None
                        end)
          (Some []) elems = Some elems).
      { induction IH as [|x elems Hx _ IHl]; cbn [fold_right forallb] in *;
          [done|].
        apply andb_true_iff in Hplain as [Hpx Hpl].
        by rewrite (Hx Hpx), (IHl Hpl). }
      by rewrite Hfold.
    + cbn [Helpers.plain Helpers.deepClone].
      intros [Hnd%bool_decide_eq_true Hall]%andb_true_iff.
      rewrite lookup_prop_None.
      * rewrite (clone_props [] props); [done | done |].
        apply Forall_forall. intros kx Hin.
        pose proof (proj1 (forallb_forall _ _) Hall kx
                      (proj1 (list_elem_of_In _ _) Hin)) as Hkx.
        apply andb_true_iff in Hkx as [[_ Hproto]%andb_true_iff Hpl].
        split; [by apply negb_true_iff|].
        by eapply Forall_forall in IH; [apply IH|].
      * apply forallb_forall. intros kx Hin.
        pose proof (proj1 (forallb_forall _ _) Hall kx Hin) as Hkx.
        by apply andb_true_iff in Hkx as [[Hh _]%andb_true_iff _].
  - intros props x -> Hx. cbn [Helpers.deepClone]. by rewrite Hx.
Qed.

Lemma deepClone_copies_witness :
  Helpers.deepClone cart_json = Some cart_json.
Proof.
  refine (proj1 (deepClone_copies cart_json) _). by vm_compute.
Defined.

(** ** [chunk] *)

Section ChunkFacts.
Context {T : Type}.
Import Chunk.

Lemma full_length (size : Z) (full : list (list T)) :
  Forall (λ c, Z.of_nat (length c) = size) full →
  Z.of_nat (length (concat full)) = size * Z.of_nat (length full).
Proof.
  induction 1 as [|c full Hc _ IH]; cbn [concat length]; [lia|].
  rewrite length_app. lia.
Qed.

Lemma round_keeps (size : Z) (prefix : list T) (cs : list (list T)) (item : T) :
  1 ≤ size → concat cs = prefix → chunked size cs →
  ∃ cs', round size (Some cs) item (Z.of_nat (length prefix)) = Some cs' ∧
         concat cs' = prefix ++ [item] ∧ chunked size cs'.
Proof.
  intros Hsize Hcat (full & last & -> & Hfull & Hlast).
  pose proof (full_length size full Hfull) as Hlen.
  unfold round, chunkIndex. cbn [mbind option_bind].
  destruct (Z.eqb_spec size 0) as [?|_]; [lia|]. cbn [mbind option_bind].
  subst prefix. rewrite concat_app, length_app, Nat2Z.inj_add, Hlen.
  destruct Hlast as [-> | (c & -> & Hc1 & Hc2)].
  - cbn [concat length]. rewrite Z.add_0_r, app_nil_r.
    replace (size * Z.of_nat (length full) / size) with (Z.of_nat (length full))
      by (rewrite Z.mul_comm, Z.div_mul; lia).
    destruct (Z.ltb_spec (Z.of_nat (length full)) 0) as [?|_]; [lia|].
    rewrite Nat2Z.id, lookup_ge_None_2, Nat.eqb_refl by lia.
    eexists. split; [done|]. split.
    + rewrite concat_app. cbn [concat]. by rewrite !app_nil_r.
    + exists full, [[item]]. split; [done|]. split; [done|].
      right. exists [item]. cbn [length]. split; [done | lia].
  - cbn [concat]. rewrite app_nil_r.
    destruct (decide (Z.of_nat (length c) = size)) as [Hc|Hc].
    + replace ((size * Z.of_nat (length full) + Z.of_nat (length c)) / size)
        with (Z.of_nat (length (full ++ [c]))).
      2:{ rewrite length_app. cbn [length].
          replace (size * Z.of_nat (length full) + Z.of_nat (length c))
            with ((Z.of_nat (length full) + 1) * size) by lia.
          rewrite Z.div_mul; lia. }
      destruct (Z.ltb_spec (Z.of_nat (length (full ++ [c]))) 0) as [?|_]; [lia|].
      rewrite Nat2Z.id, lookup_ge_None_2, Nat.eqb_refl by lia.
      eexists. split; [done|]. split.
      * rewrite !concat_app. cbn [concat]. by rewrite !app_nil_r.
      * exists (full ++ [c]), [[item]]. split; [done|]. split.
        -- apply Forall_app. split; [done|]. by repeat constructor.
        -- right. exists [item]. cbn [length]. split; [done | lia].
    + replace ((size * Z.of_nat (length full) + Z.of_nat (length c)) / size)
        with (Z.of_nat (length full)).
      2:{ rewrite Z.mul_comm, Z.div_add_l, Z.div_small; lia. }
      destruct (Z.ltb_spec (Z.of_nat (length full)) 0) as [?|_]; [lia|].
      rewrite Nat2Z.id, list_lookup_middle by done.
      rewrite insert_app_r_alt, Nat.sub_diag by lia. cbn [insert list_insert].
      eexists. split; [done|]. split.
      * rewrite !concat_app. cbn [concat]. by rewrite !app_nil_r, app_assoc.
      * exists full, [c ++ [item]]. split; [done|]. split; [done|].
        right. exists (c ++ [item]). rewrite length_app. cbn [length].
        split; [done | lia].
Qed.

Lemma reduce_keeps (size : Z) (l prefix : list T) (cs : list (list T)) :
  1 ≤ size → concat cs = prefix → chunked size cs →
  ∃ cs', reduce_from (round size) l (Z.of_nat (length prefix)) (Some cs)
         = Some cs' ∧
         concat cs' = prefix ++ l ∧ chunked size cs'.
Proof.
  intros Hsize. revert prefix cs.
  induction l as [|item l IH]; intros prefix cs Hcat Hch; cbn [reduce_from].
  - exists cs. by rewrite app_nil_r.
  - destruct (round_keeps size prefix cs item Hsize Hcat Hch)
      as (cs1 & -> & Hcat1 & Hch1).
    destruct (IH (prefix ++ [item]) cs1 Hcat1 Hch1) as (cs' & Hred & Hcat' & Hch').
    exists cs'. rewrite length_app, Nat2Z.inj_add in Hred. cbn [length] in Hred.
    split; [exact Hred|]. split; [|done]. by rewrite Hcat', <- app_assoc.
Qed.

(** X21.  For a size of at least one, [chunk] returns chunks that
    concatenate to the array, every chunk but the last of exactly [size]
    items and the last of between one and [size]; the empty array gives no
    chunk. *)
Theorem chunk_splits (array : list T) (size : Z) :
  1 ≤ size →
  ∃ cs, chunk array size = Some cs ∧ concat cs = array ∧ chunked size cs ∧
        (array = [] → cs = []).
Proof.
  intros Hsize.
  destruct (reduce_keeps size array [] [] Hsize eq_refl) as (cs & Hred & Hcat & Hch).
  { exists [], []. repeat split; [constructor | by left]. }
  exists cs. split; [exact Hred|]. split; [done|]. split; [done|].
  intros ->. by injection Hred as <-.
Qed.

End ChunkFacts.

Lemma chunk_splits_witness :
  Chunk.chunk [1; 2; 3; 4; 5] 2 = Some [[1; 2]; [3; 4]; [5]].
Proof.
  destruct (chunk_splits [1; 2; 3; 4; 5] 2) as (cs & H & _); [lia|].
  rewrite H. vm_compute in H. symmetry. exact H.
Defined.

(** ** Pagination of the product grid *)

Section PaginationFacts.
Context {A : Type}.
Import ProductGrid.

Lemma ceil_div_bounds (a b : Z) :
  1 ≤ b → 0 ≤ a →
  ∃ t, ceil_div a b = Some t ∧ (t - 1) * b < a ∧ a ≤ t * b ∧ 0 ≤ t.
Proof.
  intros Hb Ha. unfold ceil_div.
  destruct (Z.eqb_spec b 0) as [?|_]; [lia|].
  exists (- (- a / b)). split; [done|].
  pose proof (Z.div_mod (- a) b ltac:(lia)) as Hdm.
  pose proof (Z.mod_pos_bound (- a) b ltac:(lia)) as Hm.
  nia.
Qed.

Lemma slice_page (products : list A) (itemsPerPage page : Z) :
  1 ≤ itemsPerPage → 1 ≤ page →
  slice products ((page - 1) * itemsPerPage)
    ((page - 1) * itemsPerPage + itemsPerPage)
  = take (Z.to_nat itemsPerPage)
      (drop (Z.to_nat ((page - 1) * itemsPerPage)) products).
Proof.
  intros Hipp Hpage. unfold slice.
  set (len := Z.of_nat (length products)).
  set (start := (page - 1) * itemsPerPage).
  assert (0 ≤ start) by (unfold start; nia).
  destruct (Z.ltb_spec start 0) as [?|_]; [lia|].
  destruct (Z.ltb_spec (start + itemsPerPage) 0) as [?|_]; [lia|].
  destruct (Z.le_gt_cases len start) as [Hout|Hin].
  - rewrite (drop_ge products (Z.to_nat (Z.min start len))) by lia.
    rewrite (drop_ge products (Z.to_nat start)) by lia.
    by rewrite !take_nil.
  - replace (Z.min start len) with start by lia.
    destruct (Z.le_gt_cases (start + itemsPerPage) len) as [Hfull|Hpart].
    + f_equal. lia.
    + replace (Z.min (start + itemsPerPage) len) with len by lia.
      rewrite !take_ge; [done | |]; rewrite length_drop; lia.
Qed.

(** X22.  For a page size of at least one the pages cover the products
    exactly: the number of pages is finite, zero only for no products, and
    the product at index [i] is on page [i / itemsPerPage + 1], which is
    between 1 and the number of pages, at position [i mod itemsPerPage]. *)
Theorem pages_cover_products (products : list A) (itemsPerPage : Z) :
  1 ≤ itemsPerPage →
  ∃ total,
    (∀ page, totalPages (paginate products itemsPerPage page) = Some total) ∧
    (total = 0 ↔ products = []) ∧
    (∀ (i : nat) (x : A),
       products !! i = Some x →
       let page := Z.of_nat i / itemsPerPage + 1 in
       1 ≤ page ∧ page ≤ total ∧
       paginatedProducts (paginate products itemsPerPage page)
         !! Z.to_nat (Z.of_nat i mod itemsPerPage)
       = Some x).
Proof.
  intros Hipp.
  destruct (ceil_div_bounds (Z.of_nat (length products)) itemsPerPage Hipp
              ltac:(lia)) as (total & Htotal & Hlo & Hhi & Hpos).
  exists total. split; [done|]. split.
  - split.
    + intros ->. destruct products; [done|]. cbn [length] in *. lia.
    + intros ->. cbn [length] in *. nia.
  - intros i x Hix. cbv zeta.
    pose proof (lookup_lt_Some _ _ _ Hix) as Hi.
    pose proof (Z.div_mod (Z.of_nat i) itemsPerPage ltac:(lia)) as Hdm.
    pose proof (Z.mod_pos_bound (Z.of_nat i) itemsPerPage ltac:(lia)) as Hm.
    assert (0 ≤ Z.of_nat i / itemsPerPage) by (apply Z.div_pos; lia).
    split; [lia|]. split; [nia|].
    unfold paginate. cbn [paginatedProducts].
    rewrite slice_page by lia.
    replace (Z.of_nat i / itemsPerPage + 1 - 1) with (Z.of_nat i / itemsPerPage)
      by lia.
    rewrite lookup_take_lt by lia. rewrite lookup_drop.
    rewrite <- Hix. f_equal. lia.
Qed.

(** X23.  For a page size of at least one, every page from 1 to the number
    of pages shows at least one product and at most a page size, exactly a
    page size before the last page, and as many as the displayed range from
    [startIndex] to [endIndex] says; the handlers keep the page between 1 and
    the number of pages. *)
Theorem page_shape (products : list A) (itemsPerPage total page : Z) :
  1 ≤ itemsPerPage →
  totalPages (paginate products itemsPerPage page) = Some total →
  1 ≤ page → page ≤ total →
  let shown := paginate products itemsPerPage page in
  let n := Z.of_nat (length (paginatedProducts shown)) in
  1 ≤ n ∧ n ≤ itemsPerPage ∧
  (page < total → n = itemsPerPage) ∧
  n = endIndex shown - startIndex shown + 1 ∧
  startIndex shown = (page - 1) * itemsPerPage + 1 ∧
  endIndex shown ≤ Z.of_nat (length products) ∧
  1 ≤ handlePrevPage page ∧ handlePrevPage page ≤ total ∧
  1 ≤ handleNextPage total page ∧ handleNextPage total page ≤ total.
Proof.
  intros Hipp Htotal Hpage Hle. cbv zeta.
  destruct (ceil_div_bounds (Z.of_nat (length products)) itemsPerPage Hipp
              ltac:(lia)) as (t & Ht & Hlo & Hhi & Hpos).
  unfold paginate in *. cbn [totalPages paginatedProducts startIndex endIndex] in *.
  assert (t = total) as -> by congruence.
  rewrite slice_page by lia.
  rewrite length_take, length_drop.
  unfold handlePrevPage, handleNextPage.
  repeat split; nia.
Qed.

End PaginationFacts.

Lemma pages_cover_products_witness :
  ∃ total,
    (∀ page,
       ProductGrid.totalPages (ProductGrid.paginate [10; 20; 30; 40; 50] 2 page)
       = Some total) ∧
    (total = 0 ↔ [10; 20; 30; 40; 50] = []) ∧
    (∀ (i : nat) (x : Z),
       [10; 20; 30; 40; 50] !! i = Some x →
       let page := Z.of_nat i / 2 + 1 in
       1 ≤ page ∧ page ≤ total ∧
       ProductGrid.paginatedProducts
         (ProductGrid.paginate [10; 20; 30; 40; 50] 2 page)
         !! Z.to_nat (Z.of_nat i mod 2)
       = Some x).
Proof. apply (pages_cover_products [10; 20; 30; 40; 50] 2). lia. Defined.

Lemma page_shape_witness :
  Z.of_nat
    (length
       (ProductGrid.paginatedProducts
          (ProductGrid.paginate [10; 20; 30; 40; 50] 2 3)))
  = ProductGrid.endIndex (ProductGrid.paginate [10; 20; 30; 40; 50] 2 3)
    - ProductGrid.startIndex (ProductGrid.paginate [10; 20; 30; 40; 50] 2 3)
    + 1.
Proof.
  refine (proj1 (proj2 (proj2 (proj2
            (page_shape [10; 20; 30; 40; 50] 2 3 3 _ _ _ _))))).
  - lia.
  - reflexivity.
  - lia.
  - lia.
Defined.
